(** * MEDS_Tabular_AutoML: feature-column naming, schema normalisation,
      column selection and the shard iterator

    A shallow embedding of [src/MEDS_tabular_automl/utils.py] and of the
    [Iterator] class of [xgboost_sweep.py], with the properties of the
    specification stated over it.

    Python strings are [string]s (sequences of bytes; for UTF-8 text the
    byte-wise lexicographic order is the code-point order that Python's
    [<] on [str] uses).  Python exceptions are the [Raise] branch of
    [result] where the message matters and [None] elsewhere. *)

From Stdlib Require Import Ascii ZArith.
From Stdlib Require String.
From stdpp Require Import base tactics option list sorting gmap strings.

Local Open Scope Z_scope.
Local Open Scope nat_scope.

(** ** Python string and list primitives *)

Module Py.

(** [s.split(sep)] for a one-character separator: always at least one
    segment, one more segment than there are separators. *)
Fixpoint split (sep : ascii) (s : string) : list string :=
  match s with
  | EmptyString => [EmptyString]
  | String a s' =>
      if Ascii.eqb a sep then EmptyString :: split sep s'
      else match split sep s' with
           | [] => [String a EmptyString]
           | seg :: rest => String a seg :: rest
           end
  end.

(** [sep.join(l)] *)
Fixpoint join (sep : string) (l : list string) : string :=
  match l with
  | [] => EmptyString
  | [x] => x
  | x :: rest => x +:+ sep +:+ join sep rest
  end.

(** Normalisation of a slice bound against a list of length [n]:
    negative bounds count from the end, all bounds are clamped. *)
Definition bound (n : nat) (i : Z) : nat :=
  if (i <? 0)%Z then Z.to_nat (Z.max 0 (Z.of_nat n + i))
  else Nat.min (Z.to_nat i) n.

(** [l[lo:hi]]; [hi = None] is the open slice [l[lo:]]. *)
Definition slice {A} (lo : Z) (hi : option Z) (l : list A) : list A :=
  let n := length l in
  let a := bound n lo in
  let b := match hi with Some h => bound n h | None => n end in
  take (b - a) (drop a l).

(** [l[i]] with Python's negative indexing; [None] is [IndexError]. *)
Definition index {A} (i : Z) (l : list A) : option A :=
  if (i <? 0)%Z then
    (if (Z.of_nat (length l) + i <? 0)%Z then None
     else l !! Z.to_nat (Z.of_nat (length l) + i))
  else l !! Z.to_nat i.

(** [c in s] for a one-character needle. *)
Fixpoint contains (c : ascii) (s : string) : bool :=
  match s with
  | EmptyString => false
  | String a s' => Ascii.eqb a c || contains c s'
  end.

(** [s.endswith(suffix)] *)
Fixpoint endswith (s suffix : string) : bool :=
  String.eqb s suffix ||
  match s with
  | EmptyString => false
  | String _ s' => endswith s' suffix
  end.

(** [x in l] on a list of strings. *)
Definition str_in (x : string) (l : list string) : bool :=
  existsb (String.eqb x) l.

(** Insertion into a list sorted by [String.leb]; equal keys keep their
    order, as in Python's stable [sorted]. *)
Fixpoint insert_sorted (x : string) (l : list string) : list string :=
  match l with
  | [] => [x]
  | y :: l' => if String.leb y x then y :: insert_sorted x l' else x :: l
  end.

(** [sorted(l)] on a list of strings. *)
Definition sorted (l : list string) : list string :=
  foldr insert_sorted [] (reverse l).

End Py.

(** The order [sorted] sorts by. *)
Definition str_le (x y : string) : Prop := String.leb x y = true.

(** ** Errors *)

Inductive error : Type :=
  | ValueError (msg : string)
  | IndexError.

Inductive result (A : Type) : Type :=
  | Ok (a : A)
  | Raise (e : error).
Arguments Ok {A} a.
Arguments Raise {A} e.

Definition is_ok {A} (r : result A) : bool :=
  match r with Ok _ => true | Raise _ => false end.

Definition to_option {A} (r : result A) : option A :=
  match r with Ok a => Some a | Raise _ => None end.

(** ** utils.py: column names and their types *)

Inductive DataType : Type :=
  | Float32 | Boolean | UInt32 | Int64 | Float64 | Utf8 | Datetime.

Global Instance DataType_eq_dec : EqDecision DataType.
Proof. solve_decision. Defined.

Definition slash : ascii := "/"%char.

(** A segment: a string without a slash. *)
Definition slash_free (s : string) : Prop := Py.contains slash s = false.

(** [parse_flat_feature_column] *)
Definition parse_flat_feature_column (c : string)
  : result (string * string * string) :=
  let parts := Py.split slash c in
  if length parts <? 3 then
    Raise (ValueError ("Column " +:+ c +:+ " is not a valid flat feature column!"))
  else
    match Py.index 0 parts, Py.index (-1) parts with
    | Some p0, Some pl => Ok (p0, Py.join "/" (Py.slice 1 (Some (-1)%Z) parts), pl)
    | _, _ => Raise IndexError
    end.

(** [get_flat_col_dtype] *)
Definition get_flat_col_dtype (col : string) : result DataType :=
  match parse_flat_feature_column col with
  | Raise e => Raise e
  | Ok (code_type, code, agg) =>
      if Py.str_in agg ["sum"; "sum_sqd"; "min"; "max"; "value"; "first"]
      then Ok Float32
      else if Py.str_in agg ["present"] then Ok Boolean
      else if Py.str_in agg ["count"; "has_values_count"] then Ok UInt32
      else Raise (ValueError ("Column name " +:+ col +:+ " malformed!"))
  end.


(** [get_static_feature_cols].  A MEDS shard is a table of events; only
    the [code] and [timestamp] columns are read here.  [unique()] yields
    the distinct codes in no specified order: a finite set and its
    [elements]. *)
Record Event : Type := {
  code : string;
  timestamp : option Z;
  numerical_value : option Z
}.

Definition is_null {A} (o : option A) : bool :=
  match o with None => true | Some _ => false end.

Definition static_aggregations (code : string) : list string :=
  ["static/" +:+ code +:+ "/present"; "static/" +:+ code +:+ "/first"].

Definition static_codes (shard_df : list Event) : gset string :=
  let static_df := List.filter (λ r, is_null (timestamp r)) shard_df in
  list_to_set (map code static_df).

Definition get_static_feature_cols (shard_df : list Event) : list string :=
  let feature_columns :=
    foldl (λ acc code, acc ++ static_aggregations code) []
          (elements (static_codes shard_df)) in
  Py.sorted feature_columns.

(** ** The dataframe operations [add_missing_cols] uses

    A frame is the list of its columns, in order.  What the engine does
    to the values themselves (casting between types, comparing with the
    literal 0) is an interface: [cast src dst vs] is [None] when a strict
    cast fails, [ne_zero v] is the outcome of [v != 0] on a non-null
    value. *)

Class Engine : Type := {
  Val : Type;
  cast : DataType → DataType → list (option Val) → option (list (option Val));
  ne_zero : Val → bool
}.

Module Pl.
Section frames.
Context `{Engine}.

Record Series : Type := {
name : string;
dtype : DataType;
values : list (option Val)
}.

Definition DataFrame : Type := list Series.

Definition columns (df : DataFrame) : list string := map name df.

Definition height (df : DataFrame) : nat :=
match df with
| [] => 0
| s :: _ => length (values s)
end.

Definition get_column (c : string) (df : DataFrame) : option Series :=
List.find (λ s, String.eqb (name s) c) df.

(** The expressions of the source: [pl.col(c)], [pl.lit(None, dtype=dt)],
  [e.alias(n)], [e.cast(dt)] and [pl.when(p != 0).then(e)] (null where
  the predicate is false or null). *)
Inductive Expr : Type :=
| col (c : string)
| lit_null (dt : DataType)
| alias (e : Expr) (n : string)
| cast_to (e : Expr) (dt : DataType)
| when_ne_zero_then (p e : Expr).

Definition keep_nonzero (p v : option Val) : option Val :=
match p with
| Some x => if ne_zero x then v else None
| None => None
end.

Fixpoint eval (df : DataFrame) (e : Expr) : option Series :=
match e with
| col c => get_column c df
| lit_null dt =>
    Some {| name := "literal"; dtype := dt;
            values := replicate (height df) None |}
| alias e n =>
    s ← eval df e;
    Some {| name := n; dtype := dtype s; values := values s |}
| cast_to e dt =>
    s ← eval df e;
    vs ← cast (dtype s) dt (values s);
    Some {| name := name s; dtype := dt; values := vs |}
| when_ne_zero_then p e =>
    sp ← eval df p;
    s ← eval df e;
    Some {| name := name s; dtype := dtype s;
            values := zip_with keep_nonzero (values sp) (values s) |}
end.

Definition no_dup_names (l : list Series) : bool :=
bool_decide (NoDup (map name l)).

(** One new column: replaces the column of that name in place, or is
  appended. *)
Definition upsert (df : DataFrame) (s : Series) : DataFrame :=
if Py.str_in (name s) (columns df)
then map (λ c, if String.eqb (name c) (name s) then s else c) df
else df ++ [s].

(** [df.with_columns(exprs...)]: every expression is evaluated on [df];
  two expressions with the same output name are refused. *)
Definition with_columns (df : DataFrame) (exprs : list Expr) : option DataFrame :=
new ← mapM (eval df) exprs;
if no_dup_names new then Some (foldl upsert df new) else None.

(** [df.select(exprs...)] *)
Definition select (df : DataFrame) (exprs : list Expr) : option DataFrame :=
new ← mapM (eval df) exprs;
if no_dup_names new then Some new else None.

(** [cs.ends_with(suffix)] expanded against the frame. *)
Definition ends_with (suffix : string) (df : DataFrame) : list string :=
List.filter (λ c, Py.endswith c suffix) (columns df).

End frames.
End Pl.

(** [add_missing_cols].  The two Python sets are finite sets, iterated
    through [elements].  A lazy frame is modelled by the frame it
    evaluates to, [None] when evaluating it raises. *)
Section add_missing_cols.
Context `{Engine}.

Definition with_dtypes (cols : list string) : option (list (string * DataType)) :=
  mapM (λ c, dt ← to_option (get_flat_col_dtype c); Some (c, dt)) cols.

Definition key_cols (flat_df : Pl.DataFrame) : list string :=
  if Py.str_in "timestamp" (Pl.columns flat_df)
  then ["patient_id"; "timestamp"]
  else ["patient_id"].

Definition zero_counts_to_null (flat_df : Pl.DataFrame) : option Pl.DataFrame :=
  Pl.with_columns flat_df
    (map (λ c, Pl.when_ne_zero_then (Pl.col c) (Pl.col c))
         (Pl.ends_with "count" flat_df)).

Definition add_missing_cols (flat_df : Pl.DataFrame) (feature_columns : list string)
    (set_count_0_to_null : bool) : option Pl.DataFrame :=
  let fs : gset string := list_to_set feature_columns in
  let ds : gset string := list_to_set (Pl.columns flat_df) in
  let cols_to_add := elements (fs ∖ ds) in
  let cols_to_retype := elements (fs ∩ ds) in
  cols_to_add ← with_dtypes cols_to_add;
  cols_to_retype ← with_dtypes cols_to_retype;
  let key_cols := key_cols flat_df in
  flat_df ← Pl.with_columns flat_df
    (map (λ '(c, dt), Pl.alias (Pl.lit_null dt) c) cols_to_add ++
     map (λ '(c, dt), Pl.alias (Pl.cast_to (Pl.col c) dt) c) cols_to_retype);
  flat_df ← Pl.select flat_df (map Pl.col (key_cols ++ feature_columns));
  if negb set_count_0_to_null then Some flat_df
  else zero_counts_to_null flat_df.

(** What [add_missing_cols] makes of one canonical name: a column of
    nulls of the height of the frame when the frame has no such column,
    the column cast to the type of the name otherwise. *)
Definition null_series (c : string) (dt : DataType) (n : nat) : Pl.Series :=
  {| Pl.name := c; Pl.dtype := dt; Pl.values := replicate n None |}.

Definition normalize_column (flat_df : Pl.DataFrame) (c : string) : option Pl.Series :=
  dt ← to_option (get_flat_col_dtype c);
  match Pl.get_column c flat_df with
  | None => Some (null_series c dt (Pl.height flat_df))
  | Some s =>
      vs ← cast (Pl.dtype s) dt (Pl.values s);
      Some {| Pl.name := c; Pl.dtype := dt; Pl.values := vs |}
  end.

(** The frame [add_missing_cols] returns when counts are kept: the key
    columns of the input followed by the normalised canonical columns. *)
Definition normalized (flat_df : Pl.DataFrame) (feature_columns : list string)
  : option Pl.DataFrame :=
  keys ← mapM (λ k, Pl.get_column k flat_df) (key_cols flat_df);
  feats ← mapM (normalize_column flat_df) feature_columns;
  if bool_decide (NoDup feature_columns) then Some (keys ++ feats) else None.

(** What the zero-to-null pass makes of a value and of a column. *)
Definition zero_to_null (v : option Val) : option Val :=
  match v with
  | Some x => if ne_zero x then Some x else None
  | None => None
  end.

Definition nullify (s : Pl.Series) : Pl.Series :=
  if Py.endswith (Pl.name s) "count"
  then {| Pl.name := Pl.name s; Pl.dtype := Pl.dtype s;
          Pl.values := map zero_to_null (Pl.values s) |}
  else s.

(** The inputs on which [add_missing_cols] returns a frame: a [patient_id]
column, no repeated canonical name, a type for every canonical name, and
no failing cast. *)
Definition normalizable (flat_df : Pl.DataFrame) (feature_columns : list string) : Prop :=
  "patient_id" ∈ Pl.columns flat_df ∧
  NoDup feature_columns ∧
  ∀ c, c ∈ feature_columns →
    ∃ dt, get_flat_col_dtype c = Ok dt ∧
          ∀ s, Pl.get_column c flat_df = Some s →
               is_Some (cast (Pl.dtype s) dt (Pl.values s)).

End add_missing_cols.

(** ** xgboost_sweep.py: inclusion sets, column selection, join strategy *)

Record Config : Type := {
  codes : option (list string);
  aggs : option (list string);
  min_code_inclusion_frequency : option Z;
  window_sizes : list string
}.

(** [Iterator._get_inclusion_sets]; [code_frequencies] is the content of
    the corpus-wide frequency table. *)
Definition _get_inclusion_sets (cfg : Config) (code_frequencies : list (string * Z))
  : option (gset string) * option (gset string) * option (gset string) :=
  let codes_set := match codes cfg with
                   | Some l => Some (list_to_set l)
                   | None => None
                   end in
  let aggs_set := match aggs cfg with
                  | Some l => Some (list_to_set l)
                  | None => None
                  end in
  let min_frequency_set :=
    match min_code_inclusion_frequency cfg with
    | Some threshold =>
        Some (list_to_set
                (map fst (List.filter (λ r, (threshold <=? snd r)%Z) code_frequencies)))
    | None => None
    end in
  (codes_set, aggs_set, min_frequency_set).

(** [s is None or x in s] *)
Definition none_or_in (s : option (gset string)) (x : string) : bool :=
  match s with
  | None => true
  | Some s => bool_decide (x ∈ s)
  end.

(** An axis lets [x] through: it is absent, or [x] is in it. *)
Definition passes (axis : option (gset string)) (x : string) : Prop :=
  ∀ s, axis = Some s → x ∈ s.

(** Truth value of a list in a condition. *)
Definition truthy {A} (l : list A) : bool :=
  match l with [] => false | _ :: _ => true end.

(** The condition of the comprehension that builds [selected_columns] in
    [Iterator._load_shard]. *)
Definition column_selected (codes_set aggs_set min_frequency_set : option (gset string))
    (col : string) : bool :=
  let parts := Py.split slash col in
  truthy parts
  && (3 <? length parts)
  && none_or_in codes_set (Py.join "/" (Py.slice 1 (Some (-2)%Z) parts))
  && none_or_in min_frequency_set (Py.join "/" (Py.slice 1 (Some (-2)%Z) parts))
  && none_or_in aggs_set (Py.join "/" (Py.slice (-2) None parts)).

Definition selected_columns (codes_set aggs_set min_frequency_set : option (gset string))
    (columns : list string) : list string :=
  List.filter (column_selected codes_set aggs_set min_frequency_set) columns
  ++ ["patient_id"; "timestamp"].

(** The arguments of the [join_asof] call of [Iterator._load_shard]. *)
Inductive Strategy : Type := forward | backward.

Record JoinAsof : Type := {
  by_ : string;
  on : string;
  strategy : Strategy
}.

Definition dash : ascii := "-"%char.

Definition join_asof_args (window : string) : JoinAsof :=
  {| by_ := "subject_id";
     on := "timestamp";
     strategy := if Py.contains dash window then forward else backward |}.

(** ** numpy arrays and [np.concatenate(..., axis=0)] *)

Module Np.

Record ndarray (V : Type) : Type := {
  ncols : nat;
  rows : list (list V)
}.
Arguments ncols {V} _.
Arguments rows {V} _.

(** Refused on an empty list of arrays and on arrays that disagree on
    the number of columns. *)
Definition concatenate {V} (l : list (ndarray V)) : option (ndarray V) :=
  match l with
  | [] => None
  | a :: _ =>
      if forallb (λ b, ncols b =? ncols a) l
      then Some {| ncols := ncols a; rows := concat (map rows l) |}
      else None
  end.

End Np.

(** ** xgboost_sweep.py: the iterator

    What the shard assembler returns for a shard name depends on the files
    on disk; it is an interface here, [None] when assembling raises. *)

Class ShardStore : Type := {
  Elt : Type;
  assemble : string → option (Np.ndarray Elt * Np.ndarray Elt)
}.

Record Iterator : Type := {
  _data_shards : list string;
  _it : nat
}.

(** The iterator over [shards] whose index is [i]. *)
Definition at_index (shards : list string) (i : nat) : Iterator :=
  {| _data_shards := shards; _it := i |}.

Section iterator.
Context `{ShardStore}.

Definition Batch : Type := Np.ndarray Elt * Np.ndarray Elt.

(** [Iterator._load_shard]: [self._data_shards[idx]] raises out of range. *)
Definition _load_shard (self : Iterator) (idx : nat) : option Batch :=
  shard ← _data_shards self !! idx;
  assemble shard.

(** [Iterator.next]; the calls of [input_data] are recorded, in order,
    in [sink]. *)
Definition next (self : Iterator) (sink : list Batch)
  : option (Z * Iterator * list Batch) :=
  if _it self =? length (_data_shards self) then Some (0%Z, self, sink)
  else
    b ← _load_shard self (_it self);
    Some (1%Z,
          {| _data_shards := _data_shards self; _it := _it self + 1 |},
          sink ++ [b]).

(** [Iterator.reset] *)
Definition reset (self : Iterator) : Iterator :=
  {| _data_shards := _data_shards self; _it := 0 |}.

(** [Iterator.collect_in_memory]; [self] is not assigned to. *)
Definition collect_in_memory (self : Iterator) : option Batch :=
  loaded ← mapM (_load_shard self) (seq 0 (length (_data_shards self)));
  X ← Np.concatenate (map fst loaded);
  y ← Np.concatenate (map snd loaded);
  Some (X, y).

(** [k] calls of [next] in a row, with the values they return. *)
Fixpoint next_n (k : nat) (self : Iterator) (sink : list Batch)
  : option (list Z * Iterator * list Batch) :=
  match k with
  | 0 => Some ([], self, sink)
  | S k' =>
      '(r, self', sink') ← next self sink;
      '(rs, self'', sink'') ← next_n k' self' sink';
      Some (r :: rs, self'', sink'')
  end.

(** Calls of [next] until it returns 0; [None] also when [fuel] calls
    were not enough. *)
Fixpoint advance_to_exhaustion (fuel : nat) (self : Iterator) (sink : list Batch)
  : option (Iterator * list Batch) :=
  match fuel with
  | 0 => None
  | S fuel' =>
      '(r, self', sink') ← next self sink;
      if (r =? 0)%Z then Some (self', sink')
      else advance_to_exhaustion fuel' self' sink'
  end.

(** [collect_all] as the specification words it, for comparison with
    [collect_in_memory]: advance to exhaustion from the current index and
    concatenate what was supplied. *)
Definition collect_all_as_specified (self : Iterator) : option (Iterator * Batch) :=
  '(self', sink) ← advance_to_exhaustion (S (length (_data_shards self))) self [];
  X ← Np.concatenate (map fst sink);
  y ← Np.concatenate (map snd sink);
  Some (self', (X, y)).

End iterator.

(** ** The aggregation table of the specification, for comparison with
    [get_flat_col_dtype] *)
Definition mapped_type_as_specified (agg : string) : option DataType :=
  if bool_decide (agg ∈ ["sum"; "sum_sqd"; "min"; "max"; "value"; "first"])
  then Some Float32
  else if bool_decide (agg = "present") then Some Boolean
  else if bool_decide (agg ∈ ["count"; "has_values_count"]) then Some UInt32
  else None.

(** ** utils.py: the dynamic columns, the whole catalog, the shards on disk *)

(** [get_ts_feature_cols] *)
Definition ts_aggregations (aggregations : list string) (code : string) : list string :=
  map (λ agg, code +:+ "/" +:+ agg) aggregations.

Definition ts_codes (shard_df : list Event) : gset string :=
  let ts_df := List.filter (λ r, negb (is_null (timestamp r))) shard_df in
  list_to_set (map code ts_df).

Definition get_ts_feature_cols (aggregations : list string) (shard_df : list Event)
  : list string :=
  let feature_columns :=
    foldl (λ acc code, acc ++ ts_aggregations aggregations code) []
          (elements (ts_codes shard_df)) in
  Py.sorted feature_columns.

(** [get_flat_rep_feature_cols]; [aggs] is [cfg.aggs]. *)
Definition get_flat_rep_feature_cols (aggs : list string) (shard_df : list Event)
  : list string :=
  let static_feature_columns := get_static_feature_cols shard_df in
  let ts_feature_columns := get_ts_feature_cols aggs shard_df in
  static_feature_columns ++ ts_feature_columns.

(** [load_meds_data].  A path of the glob is seen through [fp.parent.stem];
    [scan_parquet] is the engine's lazy reader.  The result is a dictionary
    from split names to the readers of the files of that split. *)
Record ParquetPath : Type := {
  parent_stem : string;
  file_name : string
}.

Definition load_meds_data {LF} (scan_parquet : ParquetPath → LF)
    (meds_fps : list ParquetPath) : gmap string (list LF) :=
  let splits : gset string := list_to_set (map parent_stem meds_fps) in
  let split_to_fps : gmap string (list ParquetPath) :=
    set_to_map
      (λ split, (split, List.filter (λ fp, String.eqb (parent_stem fp) split) meds_fps))
      splits in
  map scan_parquet <$> split_to_fps.

(** ** xgboost_sweep.py: the task table and the two matrices of a shard *)

(** The renaming of the columns of the task table in [_load_shard]. *)
Definition rename_task_columns (names : list string) : list string :=
  map (λ col, col +:+ "/task") names.

(** The columns of [y] and of [X] among the columns of the joined table. *)
Definition label_columns (names : list string) : list string :=
  List.filter (λ col, Py.endswith col "/task") names.

Definition feature_matrix_columns (names : list string) : list string :=
  List.filter
    (λ col, negb (Py.str_in col ["label"; "patient_id"; "timestamp"])
            && negb (Py.endswith col "/task"))
    names.

(** ** xgboost_sweep.py: the shards of a split and their static tables *)

(** What [pathlib] tells about the name of a directory entry. *)
Class Pathlib : Type := {
  stem : string → string;
  suffix : string → string
}.

Record DirEntry : Type := {
  entry_name : string;
  is_file : bool
}.

(** The shard names [Iterator.__init__] reads off the listing of the
    static directory. *)
Definition list_data_shards `{Pathlib} (iterdir : list DirEntry) : list string :=
  map (λ x, stem (entry_name x))
      (List.filter (λ x, is_file x && String.eqb (suffix (entry_name x)) ".parquet")
                   iterdir).

(** The file of a shard, below the static directory. *)
Definition static_shard_path (shard : string) : string := shard +:+ ".parquet".

(** [Iterator._get_static_shards]; [scan_parquet] is the engine's lazy
    reader. *)
Definition _get_static_shards {LF} (scan_parquet : string → LF)
    (_data_shards : list string) : gmap string LF :=
  foldl (λ static_shards iter, <[iter := scan_parquet (static_shard_path iter)]> static_shards)
        ∅ _data_shards.

(** The static table [_load_shard] starts from; [None] is an [IndexError]
    or a [KeyError]. *)
Definition load_static {LF} (scan_parquet : string → LF)
    (keep_static_data_in_memory : bool) (_static_shards : gmap string LF)
    (_data_shards : list string) (idx : nat) : option LF :=
  if keep_static_data_in_memory then
    shard ← _data_shards !! idx;
    _static_shards !! shard
  else
    shard ← _data_shards !! idx;
    Some (scan_parquet (static_shard_path shard)).

(** ** utils.py: writing a frame *)

(** The file system as [write_df] uses it: [mkdir_parents fs fp] is
    [fp.parent.mkdir(exist_ok=True, parents=True)], [write_parquet] writes a
    frame; both are [None] when they raise. *)
Class FileSystem : Type := {
  FS : Type;
  Frame : Type;
  path_is_file : FS → string → bool;
  mkdir_parents : FS → string → option FS;
  write_parquet : FS → string → Frame → option FS
}.

(** A lazy frame, with what collecting it gives, or a frame. *)
Inductive DF_T `{FileSystem} : Type :=
  | LazyFrame (collected : option Frame)
  | DataFrame (frame : Frame).

Inductive WriteOutcome `{FileSystem} : Type :=
  | Written (fs : FS)
  | FileExistsError (msg : string)
  | OtherError.

(** [write_df]; the keyword arguments are a dictionary. *)
Definition write_df `{FileSystem} (df : DF_T) (fp : string) (kwargs : gmap string bool)
    (fs : FS) : WriteOutcome :=
  let do_overwrite := default false (kwargs !! "do_overwrite") in
  if negb do_overwrite && path_is_file fs fp then
    FileExistsError (fp +:+ " exists and do_overwrite is False!")
  else
    match mkdir_parents fs fp with
    | None => OtherError
    | Some fs =>
        match df with
        | LazyFrame collected =>
            match collected with
            | None => OtherError
            | Some frame =>
                match write_parquet fs fp frame with
                | Some fs => Written fs
                | None => OtherError
                end
            end
        | DataFrame frame =>
            match write_parquet fs fp frame with
            | Some fs => Written fs
            | None => OtherError
            end
        end
    end.

(** ** Concrete data on which the definitions are run *)

Module Sample.

(** An integer-valued engine: a cast to the type a column already has
    changes nothing, a cast to [UInt32] refuses negative values, a cast
    to [Boolean] maps non-zero to 1. *)
Definition int_cast (src dst : DataType) (vs : list (option Z))
  : option (list (option Z)) :=
  if bool_decide (src = dst) then Some vs
  else match dst with
       | UInt32 =>
           if forallb (λ v, match v with Some z => (0 <=? z)%Z | None => true end) vs
           then Some vs else None
       | Boolean => Some (map (fmap (λ z : Z, if (z =? 0)%Z then 0%Z else 1%Z)) vs)
       | _ => Some vs
       end.

Definition int_engine : Engine :=
  {| Val := Z; cast := int_cast; ne_zero := λ v, negb (v =? 0)%Z |}.

Definition series (n : string) (dt : DataType) (vs : list (option Z))
  : @Pl.Series int_engine :=
  @Pl.Build_Series int_engine n dt vs.

Definition flat_df : @Pl.DataFrame int_engine :=
  [ series "patient_id" Int64 [Some 1%Z; Some 2%Z];
    series "timestamp" Datetime [Some 10%Z; Some 20%Z];
    series "static/B/first" Int64 [Some 7%Z; None];
    series "w/A/count" Int64 [Some 0%Z; Some 3%Z];
    series "extra" Utf8 [None; None] ].

Definition feature_columns : list string :=
  ["static/A/present"; "static/B/first"; "w/A/count"].

(** The events of the docstring of [get_static_feature_cols]. *)
Definition event (c : string) (t : option Z) (v : option Z) : Event :=
  {| code := c; timestamp := t; numerical_value := v |}.

Definition shard_df : list Event :=
  [ event "A" None (Some 1%Z); event "A" (Some 1%Z) None;
    event "B" (Some 1%Z) (Some 2%Z); event "B" (Some 2%Z) (Some 2%Z);
    event "C" (Some 3%Z) None; event "C" (Some 4%Z) None;
    event "C" None (Some 3%Z) ].

(** Two shards of one row and one feature column each. *)
Definition matrix (x : Z) : Np.ndarray Z :=
  {| Np.ncols := 1; Np.rows := [[x]] |}.

Definition two_shards : ShardStore :=
  {| Elt := Z;
     assemble := λ shard,
       if String.eqb shard "0" then Some (matrix 1, matrix 10)
       else if String.eqb shard "1" then Some (matrix 2, matrix 20)
       else None |}.

Definition it1 : Iterator := {| _data_shards := ["0"; "1"]; _it := 1 |}.

(** A file system of files only, and [pathlib] on names with one dot. *)
Definition files_only : FileSystem :=
  {| FS := gmap string (list Z);
     Frame := list Z;
     path_is_file := λ fs fp, bool_decide (is_Some (fs !! fp));
     mkdir_parents := λ fs fp, Some fs;
     write_parquet := λ fs fp frame, Some (<[fp := frame]> fs) |}.

Definition one_dot : Pathlib :=
  {| stem := λ n, match Py.split "."%char n with
                  | [a; b] => a
                  | _ => n
                  end;
     suffix := λ n, match Py.split "."%char n with
                    | [a; b] => "." +:+ b
                    | _ => ""
                    end |}.

End Sample.

(** * Properties *)

(** ** Strings *)

Lemma split_nonempty sep s : Py.split sep s ≠ [].
Proof. destruct s as [|a s]; simpl; [done|]. destruct (Ascii.eqb a sep); [done|]. by destruct (Py.split sep s). Qed.

Lemma split_length_pos sep s : 0 < length (Py.split sep s).
Proof. pose proof (split_nonempty sep s). destruct (Py.split sep s); simpl; [done|lia]. Qed.

Lemma split_slash_free s : slash_free s → Py.split slash s = [s].
Proof.
  unfold slash_free. induction s as [|a s IH]; simpl; [done|].
  destruct (Ascii.eqb a slash); simpl; [done|].
  intros Hs. by rewrite IH.
Qed.

Lemma split_app_sep sep s t :
  Py.split sep (s +:+ String sep t) = Py.split sep s ++ Py.split sep t.
Proof.
  induction s as [|a s IH]; simpl.
  - by rewrite Ascii.eqb_refl.
  - destruct (Ascii.eqb a sep); [by rewrite IH|].
    rewrite IH. pose proof (split_nonempty sep s).
    by destruct (Py.split sep s).
Qed.

Lemma split_segments_slash_free s : Forall slash_free (Py.split slash s).
Proof.
  induction s as [|a s IH]; simpl.
  - by repeat constructor.
  - destruct (Ascii.eqb a slash) eqn:E; [by constructor|].
    pose proof (split_nonempty slash s).
    destruct (Py.split slash s) as [|seg rest]; [done|].
    inversion IH; subst. constructor; [|done].
    unfold slash_free in *. simpl. by rewrite E.
Qed.

Lemma join_cons sep x y l :
  Py.join sep (x :: y :: l) = x +:+ sep +:+ Py.join sep (y :: l).
Proof. done. Qed.

(** Splitting is inverse to joining, on both sides. *)
Lemma split_join segs :
  segs ≠ [] → Forall slash_free segs → Py.split slash (Py.join "/" segs) = segs.
Proof.
  induction segs as [|x [|y l] IH]; [done| |].
  - intros _ Hx. inversion Hx; subst. by apply split_slash_free.
  - intros _ Hx. inversion Hx; subst. rewrite join_cons.
    change ("/" +:+ Py.join "/" (y :: l)) with (String slash (Py.join "/" (y :: l))).
    rewrite split_app_sep, split_slash_free by done.
    simpl. f_equal. by apply IH.
Qed.

Lemma join_split s : Py.join "/" (Py.split slash s) = s.
Proof.
  induction s as [|a s IH]; simpl; [done|].
  destruct (Ascii.eqb a slash) eqn:E.
  - apply Ascii.eqb_eq in E. subst a.
    pose proof (split_nonempty slash s).
    destruct (Py.split slash s); [done|]. rewrite join_cons, IH. done.
  - pose proof (split_nonempty slash s).
    destruct (Py.split slash s) as [|seg [|seg' rest]]; [done| |].
    + simpl in *. by rewrite IH.
    + rewrite join_cons in IH |- *. by rewrite <- IH.
Qed.

Lemma str_in_elem_of x l : Py.str_in x l = bool_decide (x ∈ l).
Proof.
  unfold Py.str_in. induction l as [|y l IH].
  - symmetry. apply bool_decide_eq_false_2, not_elem_of_nil.
  - cbn [existsb]. rewrite IH. destruct (String.eqb_spec x y) as [->|Hne]; cbn [orb].
    + symmetry. apply bool_decide_eq_true_2, list_elem_of_here.
    + apply bool_decide_ext. rewrite elem_of_cons. tauto.
Qed.

(** ** Indexing and slicing *)

Lemma index_first {A} (x : A) l : Py.index 0 (x :: l) = Some x.
Proof. done. Qed.

Lemma index_last {A} (x : A) l : Py.index (-1) (l ++ [x]) = Some x.
Proof.
  unfold Py.index. rewrite length_app. simpl.
  replace (Z.of_nat (length l + 1) + -1)%Z with (Z.of_nat (length l)) by lia.
  destruct (Z.ltb_spec (Z.of_nat (length l)) 0); [lia|].
  rewrite Nat2Z.id. by rewrite list_lookup_middle.
Qed.

Lemma bound_neg n k : k ≤ n → Py.bound n (- Z.of_nat (S k)) = n - S k.
Proof.
  intros Hk. unfold Py.bound.
  destruct (Z.ltb_spec (- Z.of_nat (S k)) 0); lia.
Qed.

Lemma bound_one n : 1 ≤ n → Py.bound n 1 = 1.
Proof. intros Hn. unfold Py.bound. change (1 <? 0)%Z with false. cbn match. lia. Qed.

(** [l[1:-1]] *)
Lemma slice_middle {A} (x y : A) mid :
  Py.slice 1 (Some (-1)%Z) (x :: mid ++ [y]) = mid.
Proof.
  unfold Py.slice. simpl length. rewrite length_app. simpl length.
  change (-1)%Z with (- Z.of_nat 1)%Z. rewrite bound_neg, bound_one by lia.
  change (drop 1 (x :: mid ++ [y])) with (mid ++ [y]).
  replace (S (length mid + 1) - 1 - 1) with (length mid) by lia.
  by rewrite take_app_length.
Qed.

(** [l[1:-2]] *)
Lemma slice_code {A} (x y z : A) mid :
  Py.slice 1 (Some (-2)%Z) (x :: mid ++ [y; z]) = mid.
Proof.
  unfold Py.slice. simpl length. rewrite length_app. simpl length.
  change (-2)%Z with (- Z.of_nat 2)%Z. rewrite bound_neg, bound_one by lia.
  change (drop 1 (x :: mid ++ [y; z])) with (mid ++ [y; z]).
  replace (S (length mid + 2) - 2 - 1) with (length mid) by lia.
  by rewrite take_app_length.
Qed.

(** [l[-2:]] *)
Lemma slice_last_two {A} (y z : A) l :
  Py.slice (-2) None (l ++ [y; z]) = [y; z].
Proof.
  unfold Py.slice. rewrite length_app. simpl length.
  change (-2)%Z with (- Z.of_nat 2)%Z. rewrite bound_neg by lia.
  replace (length l + 2 - 2) with (length l) by lia.
  rewrite drop_app_length. replace (length l + 2 - length l) with 2 by lia. done.
Qed.

Lemma list_ends {A} (l : list A) :
  2 ≤ length l → ∃ x mid y, l = x :: mid ++ [y].
Proof.
  destruct l as [|x l]; simpl; [lia|]. intros Hl.
  destruct (decide (l = [])) as [->|Hne]; [simpl in *; lia|].
  destruct (exists_last Hne) as (mid & y & ->). eauto.
Qed.

Lemma list_ends_two {A} (l : list A) :
  3 < length l → ∃ x c mid y z, l = x :: (c :: mid) ++ [y; z].
Proof.
  intros Hl. destruct (list_ends l) as (x & m & z & ->); [lia|].
  simpl in Hl. rewrite length_app in Hl. simpl in Hl.
  destruct m as [|c m]; [simpl in *; lia|].
  destruct (decide (m = [])) as [->|Hne]; [simpl in *; lia|].
  destruct (exists_last Hne) as (mid & y & ->).
  exists x, c, mid, y, z. simpl. by rewrite <- app_assoc.
Qed.

(** ** parse_flat_feature_column and get_flat_col_dtype *)

Lemma parse_short c :
  length (Py.split slash c) < 3 →
  parse_flat_feature_column c
  = Raise (ValueError ("Column " +:+ c +:+ " is not a valid flat feature column!")).
Proof.
  intros Hl. unfold parse_flat_feature_column.
  destruct (Nat.ltb_spec (length (Py.split slash c)) 3); [done|lia].
Qed.

Lemma parse_long c p0 mid pl :
  Py.split slash c = p0 :: mid ++ [pl] → mid ≠ [] →
  parse_flat_feature_column c = Ok (p0, Py.join "/" mid, pl).
Proof.
  intros Hs Hmid. unfold parse_flat_feature_column. rewrite Hs.
  destruct (Nat.ltb_spec (length (p0 :: mid ++ [pl])) 3) as [Hl|_].
  - simpl in Hl. rewrite length_app in Hl. destruct mid; [done|simpl in Hl; lia].
  - rewrite index_first, slice_middle.
    change (p0 :: mid ++ [pl]) with ((p0 :: mid) ++ [pl]).
    by rewrite index_last.
Qed.

Lemma get_flat_col_dtype_short c :
  length (Py.split slash c) < 3 →
  get_flat_col_dtype c
  = Raise (ValueError ("Column " +:+ c +:+ " is not a valid flat feature column!")).
Proof. intros Hl. unfold get_flat_col_dtype. by rewrite parse_short. Qed.

Lemma get_flat_col_dtype_long c agg :
  3 ≤ length (Py.split slash c) → last (Py.split slash c) = Some agg →
  get_flat_col_dtype c =
    match mapped_type_as_specified agg with
    | Some dt => Ok dt
    | None => Raise (ValueError ("Column name " +:+ c +:+ " malformed!"))
    end.
Proof.
  intros Hl Hlast.
  destruct (list_ends (Py.split slash c)) as (p0 & mid & pl & Hs); [lia|].
  rewrite Hs in Hl, Hlast.
  change (p0 :: mid ++ [pl]) with ((p0 :: mid) ++ [pl]) in Hlast.
  rewrite last_snoc in Hlast. injection Hlast as ->.
  assert (mid ≠ []) as Hmid.
  { intros ->. simpl in Hl. lia. }
  unfold get_flat_col_dtype. rewrite (parse_long _ _ _ _ Hs Hmid).
  unfold mapped_type_as_specified. rewrite !str_in_elem_of.
  assert (bool_decide (agg ∈ ["present"]) = bool_decide (agg = "present")) as ->.
  { apply bool_decide_ext. by rewrite list_elem_of_singleton. }
  by repeat case_bool_decide.
Qed.

Lemma static_name_segments code agg :
  slash_free agg →
  let c := "static/" +:+ code +:+ "/" +:+ agg in
  3 ≤ length (Py.split slash c) ∧ last (Py.split slash c) = Some agg.
Proof.
  intros Hagg c. subst c.
  change ("static/" +:+ code +:+ "/" +:+ agg)
    with ("static" +:+ String slash (code +:+ String slash agg)).
  rewrite !split_app_sep, (split_slash_free agg) by done.
  change (Py.split slash "static") with ["static"].
  pose proof (split_length_pos slash code).
  split.
  - simpl. rewrite length_app. simpl. lia.
  - by rewrite app_assoc, last_snoc.
Qed.

(** C10: a name with fewer than three segments is refused by
    [parse_flat_feature_column]; a name with at least three segments is
    parsed into its first segment, the middle segments joined by a slash,
    and its last segment; hence [get_flat_col_dtype] refuses every
    two-segment name [code/agg], whatever the aggregation. *)
Theorem parse_flat_feature_column_segments (c : string) :
  let parts := Py.split slash c in
  (length parts < 3 →
     parse_flat_feature_column c
     = Raise (ValueError ("Column " +:+ c +:+ " is not a valid flat feature column!")))
  ∧ (3 ≤ length parts →
     ∃ p0 mid pl, parts = p0 :: mid ++ [pl] ∧
       parse_flat_feature_column c = Ok (p0, Py.join "/" mid, pl))
  ∧ (∀ code agg, slash_free code → slash_free agg → c = code +:+ "/" +:+ agg →
     get_flat_col_dtype c
     = Raise (ValueError ("Column " +:+ c +:+ " is not a valid flat feature column!"))).
Proof.
  intros parts. split; [apply parse_short|]. split.
  - intros Hl. destruct (list_ends parts) as (p0 & mid & pl & Hs); [lia|].
    exists p0, mid, pl. split; [done|]. apply parse_long; [done|].
    intros ->. rewrite Hs in Hl. simpl in Hl. lia.
  - intros code agg Hcode Hagg ->. apply get_flat_col_dtype_short.
    change (code +:+ "/" +:+ agg) with (code +:+ String slash agg).
    rewrite split_app_sep, !split_slash_free by done. simpl. lia.
Qed.

Lemma parse_flat_feature_column_segments_witness :
  (slash_free "A" ∧ slash_free "count") ∧
  get_flat_col_dtype "A/count"
  = Raise (ValueError "Column A/count is not a valid flat feature column!").
Proof.
  split; [by split|].
  exact (proj2 (proj2 (parse_flat_feature_column_segments "A/count"))
               "A" "count" eq_refl eq_refl eq_refl).
Defined.

(** C1, as stated, fails: a dynamic name [code/agg] whose aggregation is in
    the enumeration is refused instead of being given the mapped type. *)
Lemma get_flat_col_dtype_dynamic_name_refused :
  mapped_type_as_specified "sum" = Some Float32 ∧
  get_flat_col_dtype "A/sum"
  = Raise (ValueError "Column A/sum is not a valid flat feature column!").
Proof. split; reflexivity. Qed.

(** C1, amended: for every name with at least three segments, in
    particular every static name [static/code/agg] and every dynamic name
    whose code has a slash, [get_flat_col_dtype] returns the mapped type of
    the last segment when it is in the enumeration and fails otherwise; every
    name with fewer than three segments fails. *)
Theorem get_flat_col_dtype_mapped_type :
  (∀ col agg,
     3 ≤ length (Py.split slash col) → last (Py.split slash col) = Some agg →
     get_flat_col_dtype col =
       match mapped_type_as_specified agg with
       | Some dt => Ok dt
       | None => Raise (ValueError ("Column name " +:+ col +:+ " malformed!"))
       end)
  ∧ (∀ code agg,
     slash_free agg →
     get_flat_col_dtype ("static/" +:+ code +:+ "/" +:+ agg) =
       match mapped_type_as_specified agg with
       | Some dt => Ok dt
       | None => Raise (ValueError ("Column name " +:+ ("static/" +:+ code +:+ "/" +:+ agg)
                                    +:+ " malformed!"))
       end)
  ∧ (∀ col, length (Py.split slash col) < 3 → is_ok (get_flat_col_dtype col) = false).
Proof.
  split; [apply get_flat_col_dtype_long|]. split.
  - intros code agg Hagg.
    destruct (static_name_segments code agg Hagg) as [Hl Hlast].
    by apply get_flat_col_dtype_long.
  - intros col Hl. by rewrite get_flat_col_dtype_short.
Qed.

Lemma get_flat_col_dtype_mapped_type_witness :
  slash_free "has_values_count" ∧
  get_flat_col_dtype "static/LAB/a1c/has_values_count" = Ok UInt32.
Proof.
  split; [reflexivity|].
  exact (proj1 (proj2 get_flat_col_dtype_mapped_type) "LAB/a1c" "has_values_count" eq_refl).
Defined.

(** ** Join strategy *)

Lemma contains_elem_of c s :
  Py.contains c s = true ↔ c ∈ String.list_ascii_of_string s.
Proof.
  induction s as [|a s IH]; simpl.
  - split; [done|]. by intros ?%not_elem_of_nil.
  - rewrite orb_true_iff, IH, elem_of_cons, Ascii.eqb_eq.
    split; (intros [?|?]; [by left|by right]).
Qed.

(** C9: the as-of join of [_load_shard] is a forward join exactly when the
    window string contains a dash, and a backward join otherwise. *)
Theorem join_asof_strategy (window : string) :
  (strategy (join_asof_args window) = forward
   ↔ dash ∈ String.list_ascii_of_string window)
  ∧ (strategy (join_asof_args window) = backward
   ↔ dash ∉ String.list_ascii_of_string window).
Proof.
  rewrite <- contains_elem_of. unfold join_asof_args. simpl.
  destruct (Py.contains dash window); split; split; try done.
Qed.

Example strategy_of_windows :
  strategy (join_asof_args "-30d") = forward ∧ strategy (join_asof_args "30d") = backward ∧
  strategy (join_asof_args "full") = backward.
Proof. by repeat split. Qed.

(** ** Inclusion sets and column selection *)

Lemma inclusion_sets_absent cfg code_frequencies :
  codes cfg = None → aggs cfg = None → min_code_inclusion_frequency cfg = None →
  _get_inclusion_sets cfg code_frequencies = (None, None, None).
Proof. intros Hc Ha Hm. unfold _get_inclusion_sets. by rewrite Hc, Ha, Hm. Qed.

Lemma inclusion_sets_frequency cfg code_frequencies threshold :
  min_code_inclusion_frequency cfg = Some threshold →
  ∃ s, (_get_inclusion_sets cfg code_frequencies).2 = Some s ∧
       ∀ c, c ∈ s ↔ ∃ f, (c, f) ∈ code_frequencies ∧ (threshold ≤ f)%Z.
Proof.
  intros Hm. unfold _get_inclusion_sets. rewrite Hm. simpl. eexists. split; [done|].
  intros c. rewrite elem_of_list_to_set, list_elem_of_In, in_map_iff. split.
  - intros ([c' f] & <- & [Hin Hf]%filter_In). exists f.
    rewrite list_elem_of_In. split; [done|]. by apply Z.leb_le.
  - intros (f & Hin & Hf). exists (c, f). split; [done|].
    apply filter_In. rewrite <- list_elem_of_In. split; [done|]. by apply Z.leb_le.
Qed.

Lemma none_or_in_passes axis x : none_or_in axis x = true ↔ passes axis x.
Proof.
  unfold passes. destruct axis as [s|]; simpl.
  - rewrite bool_decide_eq_true. split; [by intros ? ? [= <-]|auto].
  - split; [by intros _ ? [=]|done].
Qed.

Lemma column_selected_segments codes_set aggs_set min_frequency_set col p0 c mid a1 a2 :
  Py.split slash col = p0 :: (c :: mid) ++ [a1; a2] →
  column_selected codes_set aggs_set min_frequency_set col
  = none_or_in codes_set (Py.join "/" (c :: mid))
    && none_or_in min_frequency_set (Py.join "/" (c :: mid))
    && none_or_in aggs_set (a1 +:+ "/" +:+ a2).
Proof.
  intros Hs. unfold column_selected. rewrite Hs, slice_code.
  change (p0 :: (c :: mid) ++ [a1; a2]) with ((p0 :: c :: mid) ++ [a1; a2]).
  rewrite slice_last_two. cbn [truthy]. rewrite length_app. simpl length.
  destruct (Nat.ltb_spec 3 (S (S (length mid)) + 2)); [done|lia].
Qed.

Lemma column_selected_short codes_set aggs_set min_frequency_set col :
  length (Py.split slash col) ≤ 3 →
  column_selected codes_set aggs_set min_frequency_set col = false.
Proof.
  intros Hl. unfold column_selected.
  destruct (Nat.ltb_spec 3 (length (Py.split slash col))); [lia|].
  by rewrite andb_false_r.
Qed.

(** C2, as stated, fails: with all three axes absent the dynamic column
    [A/sum] does not pass, and neither does it pass the axis
    [explicit_codes = {A}] although everything before its last segment is
    [A]. *)
Lemma column_selected_two_segments_rejected :
  column_selected None None None "A/sum" = false ∧
  column_selected (Some {["A"]}) None None "A/sum" = false.
Proof. split; reflexivity. Qed.

(** C2, amended: a column passes the selection of [_load_shard] iff its
    name has more than three segments and it passes every present axis,
    where the code is the segments between the first one and the last two,
    joined by slashes, and the aggregation is the last two segments joined
    by a slash; an absent axis excludes nothing.  With all three axes absent
    exactly the names of more than three segments pass, and with
    [explicit_codes = {A}] alone exactly those among them whose code is
    [A]. *)
Theorem column_selected_iff codes_set aggs_set min_frequency_set (col : string) :
  (column_selected codes_set aggs_set min_frequency_set col = true ↔
     ∃ p0 c mid a1 a2,
       Py.split slash col = p0 :: (c :: mid) ++ [a1; a2] ∧
       passes codes_set (Py.join "/" (c :: mid)) ∧
       passes min_frequency_set (Py.join "/" (c :: mid)) ∧
       passes aggs_set (a1 +:+ "/" +:+ a2))
  ∧ (column_selected None None None col = true ↔ 3 < length (Py.split slash col))
  ∧ (∀ A : string,
       column_selected (Some {[A]}) None None col = true ↔
       ∃ p0 c mid a1 a2,
         Py.split slash col = p0 :: (c :: mid) ++ [a1; a2] ∧ Py.join "/" (c :: mid) = A).
Proof.
  assert (∀ cs ags mfs,
    column_selected cs ags mfs col = true ↔
     ∃ p0 c mid a1 a2,
       Py.split slash col = p0 :: (c :: mid) ++ [a1; a2] ∧
       passes cs (Py.join "/" (c :: mid)) ∧
       passes mfs (Py.join "/" (c :: mid)) ∧
       passes ags (a1 +:+ "/" +:+ a2)) as Hmain.
  { intros cs ags mfs. split.
    - intros Hsel.
      destruct (decide (3 < length (Py.split slash col))) as [Hl|Hl];
        [|rewrite column_selected_short in Hsel by lia; done].
      destruct (list_ends_two _ Hl) as (p0 & c & mid & a1 & a2 & Hs).
      rewrite (column_selected_segments _ _ _ _ _ _ _ _ _ Hs) in Hsel.
      apply andb_true_iff in Hsel as [[H1 H2]%andb_true_iff H3].
      exists p0, c, mid, a1, a2. by rewrite <- !none_or_in_passes.
    - intros (p0 & c & mid & a1 & a2 & Hs & H1 & H2 & H3).
      rewrite (column_selected_segments _ _ _ _ _ _ _ _ _ Hs).
      apply none_or_in_passes in H1, H2, H3. by rewrite H1, H2, H3. }
  split; [apply Hmain|]. split.
  - rewrite Hmain. split.
    + intros (p0 & c & mid & a1 & a2 & Hs & _). rewrite Hs. simpl.
      rewrite length_app. simpl. lia.
    + intros Hl. destruct (list_ends_two _ Hl) as (p0 & c & mid & a1 & a2 & Hs).
      exists p0, c, mid, a1, a2. by repeat split.
  - intros A. rewrite Hmain. split.
    + intros (p0 & c & mid & a1 & a2 & Hs & H1 & _).
      exists p0, c, mid, a1, a2. split; [done|].
      specialize (H1 _ eq_refl). by apply elem_of_singleton in H1.
    + intros (p0 & c & mid & a1 & a2 & Hs & <-).
      exists p0, c, mid, a1, a2. split; [done|].
      split; [|by split]. intros s [= <-]. by apply elem_of_singleton.
Qed.

Example column_selected_window_code_agg :
  column_selected (Some {["LAB/a1c"]}) (Some {["value/sum"]}) None "30d/LAB/a1c/value/sum" = true ∧
  column_selected (Some {["LAB/a1c"]}) (Some {["value/sum"]}) None "30d/LAB/hdl/value/sum" = false ∧
  selected_columns None None None ["A/sum"; "30d/A/value/sum"; "patient_id"]
  = ["30d/A/value/sum"; "patient_id"; "timestamp"].
Proof. repeat split; reflexivity. Qed.

Lemma column_selected_iff_witness :
  3 < length (Py.split slash "30d/A/value/sum") ∧
  column_selected None None None "30d/A/value/sum" = true.
Proof.
  assert (3 < length (Py.split slash "30d/A/value/sum")) as Hl by (simpl; lia).
  split; [exact Hl|].
  exact (proj2 (proj1 (proj2 (column_selected_iff None None None "30d/A/value/sum"))) Hl).
Defined.

(** ** The order of strings and [sorted] *)

Lemma ascii_compare_refl a : Ascii.compare a a = Eq.
Proof. apply N.compare_refl. Qed.

Lemma ascii_compare_lt_trans a b c :
  Ascii.compare a b = Lt → Ascii.compare b c = Lt → Ascii.compare a c = Lt.
Proof. unfold Ascii.compare. rewrite !N.compare_lt_iff. lia. Qed.

Lemma str_compare_lt_trans s1 s2 s3 :
  String.compare s1 s2 = Lt → String.compare s2 s3 = Lt → String.compare s1 s3 = Lt.
Proof.
  revert s2 s3. induction s1 as [|a1 s1 IH]; intros [|a2 s2] [|a3 s3]; simpl; try done.
  destruct (Ascii.compare a1 a2) eqn:E12; try done;
    destruct (Ascii.compare a2 a3) eqn:E23; try done.
  - apply Ascii.compare_eq_iff in E12, E23. subst.
    rewrite ascii_compare_refl. apply IH.
  - apply Ascii.compare_eq_iff in E12. subst. by rewrite E23.
  - apply Ascii.compare_eq_iff in E23. subst. by rewrite E12.
  - by rewrite (ascii_compare_lt_trans _ _ _ E12 E23).
Qed.

Lemma str_compare_refl s : String.compare s s = Eq.
Proof. induction s as [|a s IH]; simpl; [done|]. by rewrite ascii_compare_refl. Qed.

Lemma str_le_trans : Transitive str_le.
Proof.
  intros x y z. unfold str_le, String.leb.
  destruct (String.compare x y) eqn:Exy; try done;
    destruct (String.compare y z) eqn:Eyz; try done; intros _ _.
  - apply String.compare_eq_iff in Exy, Eyz. subst. by rewrite str_compare_refl.
  - apply String.compare_eq_iff in Exy. subst. by rewrite Eyz.
  - apply String.compare_eq_iff in Eyz. subst. by rewrite Exy.
  - by rewrite (str_compare_lt_trans _ _ _ Exy Eyz).
Qed.

Lemma str_le_antisym : AntiSymm (=) str_le.
Proof. intros x y. apply String.leb_antisym. Qed.

Lemma str_le_total x y : String.leb x y = false → str_le y x.
Proof. intros Hf. destruct (String.leb_total x y) as [Ht|Ht]; [congruence|done]. Qed.

Lemma insert_sorted_perm x l : Py.insert_sorted x l ≡ₚ x :: l.
Proof.
  induction l as [|y l IH]; simpl; [done|].
  destruct (String.leb y x); [|done].
  rewrite IH. apply Permutation_swap.
Qed.

Lemma insert_sorted_hd x y l :
  str_le y x → HdRel str_le y l → HdRel str_le y (Py.insert_sorted x l).
Proof.
  intros Hyx Hhd. destruct l as [|z l]; simpl; [by constructor|].
  destruct (String.leb z x); constructor; [by inversion Hhd|done].
Qed.

Lemma insert_sorted_Sorted x l :
  Sorted str_le l → Sorted str_le (Py.insert_sorted x l).
Proof.
  induction 1 as [|y l Hl IH Hhd]; simpl; [by repeat constructor|].
  destruct (String.leb y x) eqn:E.
  - constructor; [done|]. by apply insert_sorted_hd.
  - constructor; [by constructor|]. constructor. by apply str_le_total.
Qed.

Lemma sorted_perm l : Py.sorted l ≡ₚ l.
Proof.
  unfold Py.sorted. rewrite <- (reverse_Permutation l) at 2.
  induction (reverse l) as [|x k IH]; simpl; [done|].
  by rewrite insert_sorted_perm, IH.
Qed.

Lemma sorted_Sorted l : Sorted str_le (Py.sorted l).
Proof.
  unfold Py.sorted. induction (reverse l) as [|x k IH]; simpl; [constructor|].
  by apply insert_sorted_Sorted.
Qed.

(** The result of [sorted] does not depend on the order of its input. *)
Lemma sorted_order_independent l k : l ≡ₚ k → Py.sorted l = Py.sorted k.
Proof.
  intros Hp. pose proof str_le_trans. pose proof str_le_antisym.
  apply (Sorted_unique str_le); try apply sorted_Sorted.
  by rewrite !sorted_perm.
Qed.

(** ** get_static_feature_cols *)

Lemma extend_loop {A} (f : A → list string) acc l :
  foldl (λ acc x, acc ++ f x) acc l = acc ++ (l ≫= f).
Proof.
  revert acc. induction l as [|x l IH]; intros acc; simpl.
  - by rewrite app_nil_r.
  - by rewrite IH, <- app_assoc.
Qed.

Lemma elem_of_static_codes c shard_df :
  c ∈ static_codes shard_df ↔ ∃ r, r ∈ shard_df ∧ timestamp r = None ∧ code r = c.
Proof.
  unfold static_codes. rewrite elem_of_list_to_set, list_elem_of_In, in_map_iff.
  split.
  - intros (r & Hc & [Hr Hn]%filter_In). exists r. rewrite list_elem_of_In.
    repeat split; [done| |done]. by destruct (timestamp r).
  - intros (r & Hr & Hn & Hc). exists r. split; [done|].
    apply filter_In. rewrite <- list_elem_of_In. by rewrite Hn.
Qed.

Lemma length_static_bind (codes : list string) :
  length (codes ≫= static_aggregations) = 2 * length codes.
Proof.
  induction codes as [|c l IH]; [done|].
  rewrite bind_cons, length_app, IH. simpl. lia.
Qed.

(** C8: [get_static_feature_cols] returns, sorted lexicographically by
    full name, exactly the names [static/code/present] and
    [static/code/first] of the distinct codes of the rows whose timestamp
    is null, two per code, in whatever order the distinct codes come; on
    the data of the docstring it returns the four names of A and C. *)
Theorem get_static_feature_cols_sorted (shard_df : list Event) :
  let cols := get_static_feature_cols shard_df in
  Sorted str_le cols
  ∧ (∀ x, x ∈ cols ↔
       ∃ r, r ∈ shard_df ∧ timestamp r = None ∧
            (x = "static/" +:+ code r +:+ "/present" ∨ x = "static/" +:+ code r +:+ "/first"))
  ∧ length cols = 2 * size (static_codes shard_df)
  ∧ (∀ codes, codes ≡ₚ elements (static_codes shard_df) →
       Py.sorted (codes ≫= static_aggregations) = cols)
  ∧ get_static_feature_cols Sample.shard_df
    = ["static/A/first"; "static/A/present"; "static/C/first"; "static/C/present"].
Proof.
  intros cols. subst cols. unfold get_static_feature_cols.
  rewrite extend_loop, app_nil_l.
  split; [apply sorted_Sorted|]. split; [|split; [|split]].
  - intros x. rewrite sorted_perm, list_elem_of_bind. split.
    + intros (c & Hx & Hc). apply elem_of_elements, elem_of_static_codes in Hc.
      destruct Hc as (r & Hr & Hn & <-). exists r. repeat split; [done..|].
      unfold static_aggregations in Hx.
      apply elem_of_cons in Hx as [->|Hx]; [by left|].
      apply list_elem_of_singleton in Hx as ->. by right.
    + intros (r & Hr & Hn & Hx). exists (code r). split.
      * unfold static_aggregations. destruct Hx as [->| ->].
        -- apply list_elem_of_here.
        -- apply list_elem_of_further, list_elem_of_here.
      * apply elem_of_elements, elem_of_static_codes. eauto.
  - by rewrite sorted_perm, length_static_bind.
  - intros codes Hp. apply sorted_order_independent. by rewrite Hp.
  - vm_compute. reflexivity.
Qed.

Lemma get_static_feature_cols_sorted_witness :
  ["A"; "C"] ≡ₚ elements (static_codes Sample.shard_df) ∧
  Py.sorted (["A"; "C"] ≫= static_aggregations) = get_static_feature_cols Sample.shard_df.
Proof.
  assert (["A"; "C"] ≡ₚ elements (static_codes Sample.shard_df)) as Hp.
  { vm_compute. apply perm_swap. }
  split; [exact Hp|].
  exact (proj1 (proj2 (proj2 (proj2 (get_static_feature_cols_sorted Sample.shard_df))))
               ["A"; "C"] Hp).
Defined.

(** ** The iterator *)

Section iterator_properties.
Context `{ShardStore}.

Implicit Types (shards : list string) (sink bs : list Batch).

Lemma load_shard_lookup shards i j bs b :
  mapM assemble shards = Some bs → bs !! j = Some b →
  _load_shard (at_index shards i) j = Some b.
Proof.
  intros Hm Hb. apply mapM_Some_1 in Hm.
  destruct (Forall2_lookup_r _ _ _ _ _ Hm Hb) as (s & Hs & Ha).
  unfold _load_shard. simpl. by rewrite Hs.
Qed.

Lemma next_exhausted shards sink :
  next (at_index shards (length shards)) sink
  = Some (0%Z, at_index shards (length shards), sink).
Proof. unfold next. simpl. by rewrite Nat.eqb_refl. Qed.

Lemma next_ready shards bs i b sink :
  mapM assemble shards = Some bs → bs !! i = Some b →
  next (at_index shards i) sink = Some (1%Z, at_index shards (i + 1), sink ++ [b]).
Proof.
  intros Hm Hb. unfold next.
  assert (i < length shards) as Hi.
  { rewrite (length_mapM _ _ _ Hm). by eapply lookup_lt_Some. }
  cbn [_it _data_shards at_index].
  destruct (Nat.eqb_spec i (length shards)); [lia|].
  by rewrite (load_shard_lookup _ _ _ _ _ Hm Hb).
Qed.

Lemma next_n_from shards bs k i sink :
  mapM assemble shards = Some bs → i ≤ length shards →
  next_n k (at_index shards i) sink
  = Some (replicate (k `min` (length shards - i)) 1%Z
            ++ replicate (k - (length shards - i)) 0%Z,
          at_index shards (i + k `min` (length shards - i)),
          sink ++ take k (drop i bs)).
Proof.
  intros Hm. pose proof (length_mapM _ _ _ Hm) as Hlen.
  revert i sink. induction k as [|k IH]; intros i sink Hi.
  - simpl. by rewrite Nat.add_0_r, app_nil_r.
  - cbn [next_n]. destruct (decide (i = length shards)) as [->|Hne].
    + rewrite next_exhausted. simpl. rewrite IH by lia.
      rewrite Nat.sub_diag, Nat.min_0_r, !Nat.sub_0_r, Nat.add_0_r. simpl.
      by rewrite Hlen, drop_all, !take_nil.
    + destruct (lookup_lt_is_Some_2 bs i) as [b Hb]; [lia|].
      rewrite (next_ready _ _ _ _ _ Hm Hb). cbn [mbind option_bind].
      rewrite IH by lia. cbn [mbind option_bind].
      replace (S k `min` (length shards - i))
        with (S (k `min` (length shards - (i + 1)))) by lia.
      replace (S k - (length shards - i)) with (k - (length shards - (i + 1))) by lia.
      replace (i + 1 + k `min` (length shards - (i + 1)))
        with (i + S (k `min` (length shards - (i + 1)))) by lia.
      rewrite (drop_S _ _ _ Hb), <- app_assoc.
      by replace (i + 1) with (S i) by lia.
Qed.

(** C5: over [N] shards that all assemble, starting at index 0, the
    first [N] calls of [next] each return 1, pass the next shard to the
    sink and increase the index by one; every later call returns 0 and
    changes neither the iterator nor the sink; [reset] sets the index to 0
    from any state, after which the [N] shards are supplied again. *)
Theorem iterator_exhaustion shards bs :
  mapM assemble shards = Some bs →
  let N := length shards in
  (∀ k sink,
     next_n k (at_index shards 0) sink
     = Some (replicate (k `min` N) 1%Z ++ replicate (k - N) 0%Z,
             at_index shards (k `min` N),
             sink ++ take k bs))
  ∧ (∀ i b sink, bs !! i = Some b →
     next (at_index shards i) sink = Some (1%Z, at_index shards (i + 1), sink ++ [b]))
  ∧ (∀ sink, next (at_index shards N) sink = Some (0%Z, at_index shards N, sink))
  ∧ (∀ i, reset (at_index shards i) = at_index shards 0)
  ∧ (∀ i sink,
     next_n N (reset (at_index shards i)) sink
     = Some (replicate N 1%Z, at_index shards N, sink ++ bs)).
Proof.
  intros Hm N. pose proof (length_mapM _ _ _ Hm) as Hlen.
  split; [|split; [|split; [|split]]].
  - intros k sink. rewrite (next_n_from _ _ _ _ _ Hm) by lia.
    by rewrite Nat.sub_0_r, drop_0.
  - intros i b sink Hb. by eapply next_ready.
  - intros sink. apply next_exhausted.
  - done.
  - intros i sink. unfold reset. simpl.
    change {| _data_shards := shards; _it := 0 |} with (at_index shards 0).
    rewrite (next_n_from _ _ _ _ _ Hm) by lia. subst N.
    rewrite Nat.sub_0_r, Nat.min_id, Nat.sub_diag, drop_0. simpl.
    by rewrite app_nil_r, Hlen, firstn_all.
Qed.

Lemma mapM_lookup_seq {A B} (f : A → option B) (k l : list A) :
  mapM (λ i, x ← (k ++ l) !! i; f x) (seq (length k) (length l)) = mapM f l.
Proof.
  revert k. induction l as [|x l IH]; intros k; [done|].
  cbn [length seq mapM]. rewrite list_lookup_middle by done.
  cbn [mbind option_bind]. destruct (f x) as [y|]; [|done].
  specialize (IH (k ++ [x])). rewrite <- app_assoc, length_app in IH.
  cbn [length app] in IH. rewrite Nat.add_1_r in IH.
  cbn [mbind option_bind]. by rewrite IH.
Qed.

Lemma mapM_load_shard self :
  mapM (_load_shard self) (seq 0 (length (_data_shards self)))
  = mapM assemble (_data_shards self).
Proof. apply (mapM_lookup_seq assemble []). Qed.

Lemma advance_step fuel self sink :
  advance_to_exhaustion (S fuel) self sink
  = ('(r, self', sink') ← next self sink;
     if (r =? 0)%Z then Some (self', sink')
     else advance_to_exhaustion fuel self' sink').
Proof. done. Qed.

Lemma next_not_exhausted shards i sink :
  i ≠ length shards →
  next (at_index shards i) sink
  = (b ← _load_shard (at_index shards 0) i;
     Some (1%Z, at_index shards (i + 1), sink ++ [b])).
Proof.
  intros Hi. unfold next. cbn [_it _data_shards at_index].
  by destruct (Nat.eqb_spec i (length shards)).
Qed.

Lemma advance_from shards d i sink :
  i + d = length shards →
  advance_to_exhaustion (S d) (at_index shards i) sink
  = (l ← mapM (_load_shard (at_index shards 0)) (seq i d);
     Some (at_index shards (length shards), sink ++ l)).
Proof.
  revert i sink. induction d as [|d IH]; intros i sink Hd.
  - rewrite Nat.add_0_r in Hd. subst i.
    rewrite advance_step, next_exhausted. simpl. by rewrite app_nil_r.
  - rewrite advance_step, next_not_exhausted by lia. cbn [seq mapM].
    destruct (_load_shard (at_index shards 0) i) as [b|]; [|done].
    cbn [mbind option_bind]. change (1 =? 0)%Z with false. cbn match.
    rewrite IH by lia. replace (i + 1) with (S i) by lia.
    destruct (mapM _ (seq (S i) d)) as [l|]; [|done].
    cbn [mbind option_bind mret option_ret]. by rewrite <- app_assoc.
Qed.

Lemma concatenate_rows {V} (l : list (Np.ndarray V)) a :
  Np.concatenate l = Some a → Np.rows a = concat (map Np.rows l).
Proof.
  unfold Np.concatenate. destruct l as [|b l]; [done|].
  destruct (forallb _ _); [|done]. by intros [= <-].
Qed.

(** C4, amended: [collect_in_memory] loads every shard, from the first
    through the last, whatever the current index, and returns the row-wise
    concatenation of their feature and label matrices; it is what a pass
    of [next] to exhaustion supplies after a [reset], and needs no [reset]
    itself. *)
Theorem collect_in_memory_full_pass (self : Iterator) :
  collect_in_memory self = collect_in_memory (reset self)
  ∧ collect_in_memory self = snd <$> collect_all_as_specified (reset self)
  ∧ (∀ bs, mapM assemble (_data_shards self) = Some bs →
       collect_in_memory self
       = (X ← Np.concatenate (map fst bs); y ← Np.concatenate (map snd bs); Some (X, y)))
  ∧ (∀ X y, collect_in_memory self = Some (X, y) →
       ∃ bs, mapM assemble (_data_shards self) = Some bs ∧
             Np.rows X = concat (map Np.rows (map fst bs)) ∧
             Np.rows y = concat (map Np.rows (map snd bs))).
Proof.
  split; [done|]. split; [|split].
  - unfold collect_in_memory, collect_all_as_specified.
    destruct self as [shards it]. unfold reset. cbn [_data_shards _it].
    change {| _data_shards := shards; _it := 0 |} with (at_index shards 0).
    rewrite advance_from by lia.
    change (_load_shard {| _data_shards := shards; _it := it |})
      with (_load_shard (at_index shards 0)).
    destruct (mapM _ (seq 0 (length shards))) as [l|]; [|done].
    cbn [mbind option_bind app].
    destruct (Np.concatenate (map fst l)) as [X|]; [|done].
    cbn [mbind option_bind].
    by destruct (Np.concatenate (map snd l)) as [y|].
  - intros bs Hm. unfold collect_in_memory. by rewrite mapM_load_shard, Hm.
  - intros X y. unfold collect_in_memory. rewrite mapM_load_shard.
    intros Hc. apply bind_Some in Hc as (bs & Hm & Hc).
    apply bind_Some in Hc as (X' & EX & Hc).
    apply bind_Some in Hc as (y' & Ey & [= <- <-]). exists bs. split; [done|].
    by rewrite (concatenate_rows _ _ EX), (concatenate_rows _ _ Ey).
Qed.

End iterator_properties.

(** C4, as stated, fails: at index 1 of two shards, [collect_in_memory]
    returns both shards and leaves the index alone, where advancing to
    exhaustion from the current index supplies the second shard only. *)
Lemma collect_in_memory_ignores_index :
  @collect_in_memory Sample.two_shards Sample.it1
  = Some ({| Np.ncols := 1; Np.rows := [[1%Z]; [2%Z]] |},
          {| Np.ncols := 1; Np.rows := [[10%Z]; [20%Z]] |})
  ∧ @collect_all_as_specified Sample.two_shards Sample.it1
  = Some ({| _data_shards := ["0"; "1"]; _it := 2 |},
          ({| Np.ncols := 1; Np.rows := [[2%Z]] |},
           {| Np.ncols := 1; Np.rows := [[20%Z]] |})).
Proof. split; reflexivity. Qed.

Lemma collect_in_memory_full_pass_witness :
  @mapM option _ _ _ _ (@assemble Sample.two_shards) ["0"; "1"]
  = Some [(Sample.matrix 1, Sample.matrix 10); (Sample.matrix 2, Sample.matrix 20)]
  ∧ @collect_in_memory Sample.two_shards Sample.it1
  = Some ({| Np.ncols := 1; Np.rows := [[1%Z]; [2%Z]] |},
          {| Np.ncols := 1; Np.rows := [[10%Z]; [20%Z]] |}).
Proof.
  split; [reflexivity|].
  exact (proj1 (proj2 (proj2 (@collect_in_memory_full_pass Sample.two_shards Sample.it1)))
               _ eq_refl).
Defined.

Lemma iterator_exhaustion_witness :
  @mapM option _ _ _ _ (@assemble Sample.two_shards) ["0"; "1"]
  = Some [(Sample.matrix 1, Sample.matrix 10); (Sample.matrix 2, Sample.matrix 20)]
  ∧ @next_n Sample.two_shards 3 {| _data_shards := ["0"; "1"]; _it := 0 |} []
  = Some ([1%Z; 1%Z; 0%Z], {| _data_shards := ["0"; "1"]; _it := 2 |},
          [(Sample.matrix 1, Sample.matrix 10); (Sample.matrix 2, Sample.matrix 20)]).
Proof.
  split; [reflexivity|].
  exact (proj1 (@iterator_exhaustion Sample.two_shards ["0"; "1"] _ eq_refl) 3 []).
Defined.

(** ** Frames *)

Section frame_properties.
Context `{Engine}.

Implicit Types (df : Pl.DataFrame) (s : Pl.Series) (c : string).

Lemma elem_of_columns df s : s ∈ df → Pl.name s ∈ Pl.columns df.
Proof. intros Hs. change (Pl.name s ∈ Pl.name <$> df). by apply list_elem_of_fmap_2. Qed.

Lemma get_column_Some c df s :
  Pl.get_column c df = Some s → Pl.name s = c ∧ s ∈ df.
Proof.
  unfold Pl.get_column. intros Hf. apply find_some in Hf as [Hin Heq].
  apply String.eqb_eq in Heq. by rewrite list_elem_of_In.
Qed.

Lemma get_column_None c df :
  Pl.get_column c df = None ↔ c ∉ Pl.columns df.
Proof.
  unfold Pl.get_column, Pl.columns. induction df as [|x df IH]; simpl.
  - split; [intros _; apply not_elem_of_nil|done].
  - rewrite not_elem_of_cons. destruct (String.eqb_spec (Pl.name x) c) as [->|Hne].
    + split; [done|]. by intros [? _].
    + rewrite IH. split; [by split|by intros [_ ?]].
Qed.

Lemma get_column_is_Some c df :
  c ∈ Pl.columns df → ∃ s, Pl.get_column c df = Some s.
Proof.
  intros Hc. destruct (Pl.get_column c df) as [s|] eqn:E; [eauto|].
  by apply get_column_None in E.
Qed.

Lemma get_column_cons c x df :
  Pl.get_column c (x :: df)
  = if String.eqb (Pl.name x) c then Some x else Pl.get_column c df.
Proof. done. Qed.

Lemma get_column_elem_of df s :
  NoDup (Pl.columns df) → s ∈ df → Pl.get_column (Pl.name s) df = Some s.
Proof.
  induction df as [|x df IH]; intros Hnd Hs; [by apply not_elem_of_nil in Hs|].
  apply NoDup_cons in Hnd as [Hx Hnd]. rewrite get_column_cons.
  apply elem_of_cons in Hs as [->|Hs]; [by rewrite String.eqb_refl|].
  destruct (String.eqb_spec (Pl.name x) (Pl.name s)) as [Heq|_]; [|by apply IH].
  destruct Hx. rewrite Heq. by apply elem_of_columns.
Qed.

(** Two frames with the same column names, without duplicates, and the
    same column under each name are equal. *)
Lemma frame_ext df1 df2 :
  Pl.columns df1 = Pl.columns df2 → NoDup (Pl.columns df1) →
  (∀ c, c ∈ Pl.columns df1 → Pl.get_column c df1 = Pl.get_column c df2) →
  df1 = df2.
Proof.
  revert df2. induction df1 as [|x df1 IH]; intros [|y df2] Hc Hnd Hget; try done.
  simpl in Hc. injection Hc as Hxy Hc.
  apply NoDup_cons in Hnd as [Hx Hnd].
  assert (x = y) as ->.
  { specialize (Hget (Pl.name x) (list_elem_of_here _ _)).
    rewrite !get_column_cons, <- Hxy, String.eqb_refl in Hget. congruence. }
  f_equal. apply IH; [done..|]. intros c Hin.
  specialize (Hget c (list_elem_of_further _ _ _ Hin)).
  rewrite !get_column_cons in Hget.
  destruct (String.eqb_spec (Pl.name y) c) as [Heq|_]; [|done].
  destruct Hx. by rewrite Heq.
Qed.

Lemma mapM_get_column_names df names out :
  mapM (λ c, Pl.get_column c df) names = Some out → Pl.columns out = names.
Proof.
  intros Hm. apply mapM_Some_1 in Hm. unfold Pl.columns.
  induction Hm as [|c s names out Hc _ IH]; simpl; [done|].
  apply get_column_Some in Hc as [-> _]. by rewrite IH.
Qed.

Lemma mapM_get_column_self df :
  NoDup (Pl.columns df) → mapM (λ c, Pl.get_column c df) (Pl.columns df) = Some df.
Proof.
  intros Hnd. apply mapM_Some_2. change (Pl.columns df) with (Pl.name <$> df).
  apply Forall2_fmap_l, Forall_Forall2_diag, Forall_forall.
  intros s Hs. by apply get_column_elem_of.
Qed.

Lemma mapM_eval_col df names :
  mapM (Pl.eval df) (map Pl.col names) = mapM (λ c, Pl.get_column c df) names.
Proof. induction names as [|c l IH]; simpl; [done|]. by rewrite IH. Qed.

(** Selecting columns by name. *)
Lemma select_cols df names out :
  Pl.select df (map Pl.col names) = Some out ↔
  NoDup names ∧ mapM (λ c, Pl.get_column c df) names = Some out.
Proof.
  unfold Pl.select, Pl.no_dup_names. rewrite mapM_eval_col. split.
  - intros (new & Hm & Hc)%bind_Some. case_bool_decide as Hnd; [|done].
    injection Hc as <-. pose proof (mapM_get_column_names _ _ _ Hm) as Hn.
    unfold Pl.columns in Hn. by rewrite Hn in Hnd.
  - intros [Hnd Hm]. rewrite Hm. cbn [mbind option_bind].
    pose proof (mapM_get_column_names _ _ _ Hm) as Hn. unfold Pl.columns in Hn.
    by rewrite Hn, bool_decide_eq_true_2.
Qed.

(** *** [with_columns] *)

Lemma get_column_replace c df s :
  Pl.get_column c (map (λ x, if String.eqb (Pl.name x) (Pl.name s) then s else x) df)
  = if String.eqb (Pl.name s) c
    then (if bool_decide (Pl.name s ∈ Pl.columns df) then Some s else None)
    else Pl.get_column c df.
Proof.
  induction df as [|x df IH].
  - simpl. by destruct (String.eqb (Pl.name s) c).
  - cbn [map]. rewrite !get_column_cons, IH.
    change (Pl.columns (x :: df)) with (Pl.name x :: Pl.columns df).
    destruct (String.eqb_spec (Pl.name x) (Pl.name s)) as [Hxs|Hxs].
    + rewrite Hxs. destruct (String.eqb_spec (Pl.name s) c) as [Hsc|Hsc]; [|done].
      by rewrite bool_decide_eq_true_2 by apply list_elem_of_here.
    + destruct (String.eqb_spec (Pl.name x) c) as [Hxc|Hxc].
      * destruct (String.eqb_spec (Pl.name s) c) as [Hsc|Hsc]; [congruence|done].
      * destruct (String.eqb_spec (Pl.name s) c) as [Hsc|Hsc]; [|done].
        assert (bool_decide (Pl.name s ∈ Pl.name x :: Pl.columns df)
                = bool_decide (Pl.name s ∈ Pl.columns df)) as ->; [|done].
        apply bool_decide_ext. rewrite elem_of_cons. split; [|by right].
        intros [?|?]; [congruence|done].
Qed.

Lemma get_column_app c df1 df2 :
  Pl.get_column c (df1 ++ df2)
  = match Pl.get_column c df1 with
    | Some s => Some s
    | None => Pl.get_column c df2
    end.
Proof.
  induction df1 as [|x df1 IH]; [done|].
  cbn [app]. rewrite !get_column_cons, IH.
  by destruct (String.eqb (Pl.name x) c).
Qed.

Lemma get_column_upsert c df s :
  Pl.get_column c (Pl.upsert df s)
  = if String.eqb (Pl.name s) c then Some s else Pl.get_column c df.
Proof.
  unfold Pl.upsert. rewrite str_in_elem_of. case_bool_decide as Hin.
  - rewrite get_column_replace. by rewrite bool_decide_eq_true_2.
  - rewrite get_column_app, get_column_cons.
    destruct (Pl.get_column c df) as [y|] eqn:E.
    + apply get_column_Some in E as [<- Hy].
      destruct (String.eqb_spec (Pl.name s) (Pl.name y)) as [Heq|_]; [|done].
      destruct Hin. rewrite Heq. by apply elem_of_columns.
    + by destruct (String.eqb (Pl.name s) c).
Qed.

Lemma columns_upsert df s :
  Pl.name s ∈ Pl.columns df → Pl.columns (Pl.upsert df s) = Pl.columns df.
Proof.
  intros Hin. unfold Pl.upsert. rewrite str_in_elem_of, bool_decide_eq_true_2 by done.
  unfold Pl.columns. rewrite map_map. apply map_ext. intros x.
  by destruct (String.eqb_spec (Pl.name x) (Pl.name s)).
Qed.

Lemma columns_foldl_upsert df new :
  Forall (λ s, Pl.name s ∈ Pl.columns df) new →
  Pl.columns (foldl Pl.upsert df new) = Pl.columns df.
Proof.
  revert df. induction new as [|s new IH]; intros df Hall; [done|].
  apply Forall_cons in Hall as [Hs Hall]. cbn [foldl].
  rewrite IH; [by apply columns_upsert|].
  by rewrite columns_upsert.
Qed.

(** With distinct output names, a name is looked up among the new
    columns first. *)
Lemma get_column_foldl_upsert c df new :
  NoDup (Pl.columns new) →
  Pl.get_column c (foldl Pl.upsert df new)
  = match Pl.get_column c new with
    | Some s => Some s
    | None => Pl.get_column c df
    end.
Proof.
  revert df. induction new as [|s new IH]; intros df Hnd; [done|].
  apply NoDup_cons in Hnd as [Hs Hnd]. cbn [foldl].
  rewrite IH, get_column_upsert, get_column_cons by done.
  destruct (String.eqb_spec (Pl.name s) c) as [<-|_]; [|done].
  apply get_column_None in Hs. by rewrite Hs.
Qed.

Lemma with_columns_Some df exprs new :
  mapM (Pl.eval df) exprs = Some new → NoDup (Pl.columns new) →
  Pl.with_columns df exprs = Some (foldl Pl.upsert df new).
Proof.
  intros Hm Hnd. unfold Pl.with_columns, Pl.no_dup_names. rewrite Hm.
  cbn [mbind option_bind]. by rewrite bool_decide_eq_true_2.
Qed.

Lemma with_columns_inv df exprs out :
  Pl.with_columns df exprs = Some out →
  ∃ new, mapM (Pl.eval df) exprs = Some new ∧ NoDup (Pl.columns new)
         ∧ out = foldl Pl.upsert df new.
Proof.
  unfold Pl.with_columns, Pl.no_dup_names.
  intros (new & Hm & Hc)%bind_Some. case_bool_decide as Hnd; [|done].
  injection Hc as <-. eauto.
Qed.

End frame_properties.

(** ** add_missing_cols *)

Section add_missing_cols_properties.
Context `{Engine}.

Implicit Types (df : Pl.DataFrame) (s : Pl.Series) (c : string).

Lemma normalize_column_name df c s : normalize_column df c = Some s → Pl.name s = c.
Proof.
  unfold normalize_column. intros (dt & _ & Hs)%bind_Some.
  destruct (Pl.get_column c df) as [s0|].
  - by apply bind_Some in Hs as (vs & _ & [= <-]).
  - by injection Hs as <-.
Qed.

Lemma normalize_column_dtype df c s :
  normalize_column df c = Some s → get_flat_col_dtype c = Ok (Pl.dtype s).
Proof.
  unfold normalize_column. intros (dt & Hdt & Hs)%bind_Some.
  destruct (get_flat_col_dtype c) as [dt'|]; [|done]. injection Hdt as ->.
  destruct (Pl.get_column c df) as [s0|].
  - by apply bind_Some in Hs as (vs & _ & [= <-]).
  - by injection Hs as <-.
Qed.

Lemma key_cols_cases df :
  key_cols df = (if bool_decide ("timestamp" ∈ Pl.columns df)
                 then ["patient_id"; "timestamp"] else ["patient_id"]).
Proof. unfold key_cols. by rewrite str_in_elem_of. Qed.

Lemma key_cols_no_dtype df k :
  k ∈ key_cols df → to_option (get_flat_col_dtype k) = None.
Proof.
  rewrite key_cols_cases. case_bool_decide.
  - intros [->|[->|?%not_elem_of_nil]%elem_of_cons]%elem_of_cons; done.
  - intros [->|?%not_elem_of_nil]%elem_of_cons; done.
Qed.

Lemma key_cols_NoDup df : NoDup (key_cols df).
Proof.
  rewrite key_cols_cases. case_bool_decide.
  - apply NoDup_cons. split; [|apply NoDup_singleton].
    by intros [=]%list_elem_of_singleton.
  - apply NoDup_singleton.
Qed.

Lemma with_dtypes_Some cols l :
  with_dtypes cols = Some l →
  Forall2 (λ c p, p.1 = c ∧ get_flat_col_dtype c = Ok p.2) cols l.
Proof.
  intros Hm. apply mapM_Some_1 in Hm. eapply Forall2_impl; [done|].
  intros c [c' dt] (dt' & Hdt & [= <- <-])%bind_Some. simpl.
  by destruct (get_flat_col_dtype c) as [?|]; simplify_eq/=.
Qed.

Lemma with_dtypes_is_Some cols :
  (∀ c, c ∈ cols → is_Some (to_option (get_flat_col_dtype c))) →
  is_Some (with_dtypes cols).
Proof.
  intros Hall. apply mapM_is_Some_2, Forall_forall. intros c Hc.
  destruct (Hall c Hc) as [dt Hdt]. simpl. rewrite Hdt. by eexists.
Qed.

Lemma mapM_Forall2_ext {A A' B} (f : A → option B) (g : A' → option B) l k :
  Forall2 (λ x y, f x = g y) l k → mapM f l = mapM g k.
Proof. induction 1 as [|x y l k Hxy _ IH]; simpl; [done|]. by rewrite Hxy, IH. Qed.

Lemma Forall2_eval_normalize df (f : string * DataType → Pl.Expr) A la :
  Forall2 (λ c p, p.1 = c ∧ get_flat_col_dtype c = Ok p.2) A la →
  (∀ c dt, c ∈ A → get_flat_col_dtype c = Ok dt →
           Pl.eval df (f (c, dt)) = normalize_column df c) →
  Forall2 (λ e c, Pl.eval df e = normalize_column df c) (map f la) A.
Proof.
  induction 1 as [|c [c' dt] A la [Heq Hdt] _ IH]; intros Hf; simpl; constructor.
  - simpl in *. subst c'. apply Hf; [apply list_elem_of_here|done].
  - apply IH. intros c0 dt0 Hc0. apply Hf. by apply list_elem_of_further.
Qed.

(** The new columns of the [with_columns] call are the normalised
    columns of the canonical names, in the order of the two sets. *)
Lemma eval_new_columns df (A B : list string) la lr :
  with_dtypes A = Some la → with_dtypes B = Some lr →
  (∀ c, c ∈ A → c ∉ Pl.columns df) → (∀ c, c ∈ B → c ∈ Pl.columns df) →
  mapM (Pl.eval df)
       (map (λ '(c, dt), Pl.alias (Pl.lit_null dt) c) la ++
        map (λ '(c, dt), Pl.alias (Pl.cast_to (Pl.col c) dt) c) lr)
  = mapM (normalize_column df) (A ++ B).
Proof.
  intros Ha%with_dtypes_Some Hr%with_dtypes_Some HA HB.
  apply mapM_Forall2_ext, Forall2_app.
  - apply Forall2_eval_normalize; [done|]. intros c dt Hc Hdt.
    unfold normalize_column. rewrite Hdt. simpl.
    apply HA, get_column_None in Hc. by rewrite Hc.
  - apply Forall2_eval_normalize; [done|]. intros c dt Hc Hdt.
    unfold normalize_column. rewrite Hdt. simpl.
    destruct (get_column_is_Some _ _ (HB c Hc)) as [s0 Hs0]. rewrite Hs0. simpl.
    by destruct (cast _ _ _).
Qed.

Lemma mapM_app {A B} (f : A → option B) l1 l2 :
  mapM f (l1 ++ l2) = (x ← mapM f l1; y ← mapM f l2; Some (x ++ y)).
Proof.
  induction l1 as [|a l1 IH]; simpl.
  - by destruct (mapM f l2).
  - destruct (f a) as [b|]; simpl; [|done]. rewrite IH.
    destruct (mapM f l1) as [x|]; simpl; [|done].
    by destruct (mapM f l2).
Qed.

Lemma select_cols_eq df names :
  Pl.select df (map Pl.col names)
  = if bool_decide (NoDup names) then mapM (λ c, Pl.get_column c df) names else None.
Proof.
  unfold Pl.select, Pl.no_dup_names. rewrite mapM_eval_col.
  destruct (mapM _ names) as [out|] eqn:E; simpl; [|by case_bool_decide].
  apply mapM_get_column_names in E. unfold Pl.columns in E. by rewrite E.
Qed.

Lemma get_column_normalized df cols new :
  mapM (normalize_column df) cols = Some new → NoDup cols →
  Pl.columns new = cols ∧
  ∀ c, Pl.get_column c new
       = if bool_decide (c ∈ cols) then normalize_column df c else None.
Proof.
  intros Hm%mapM_Some_1. induction Hm as [|c0 s cols new Hs _ IH]; intros Hnd.
  - split; [done|]. intros c. by rewrite bool_decide_eq_false_2 by apply not_elem_of_nil.
  - apply NoDup_cons in Hnd as [Hc0 Hnd]. destruct (IH Hnd) as [IHc IHg].
    pose proof (normalize_column_name _ _ _ Hs) as Hn. split.
    + change (Pl.columns (s :: new)) with (Pl.name s :: Pl.columns new). by rewrite Hn, IHc.
    + intros c. rewrite get_column_cons, Hn, IHg.
      destruct (String.eqb_spec c0 c) as [->|Hne].
      * by rewrite bool_decide_eq_true_2 by apply list_elem_of_here.
      * assert (bool_decide (c ∈ c0 :: cols) = bool_decide (c ∈ cols)) as ->; [|done].
        apply bool_decide_ext. rewrite elem_of_cons. split; [|by right].
        intros [?|?]; [congruence|done].
Qed.

(** The two sets of canonical names: not in the frame, in the frame. *)
Lemma cols_to_add_retype df (fc : list string) :
  let fs : gset string := list_to_set fc in
  let ds : gset string := list_to_set (Pl.columns df) in
  let A := elements (fs ∖ ds) in
  let B := elements (fs ∩ ds) in
  (∀ c, c ∈ A → c ∉ Pl.columns df) ∧ (∀ c, c ∈ B → c ∈ Pl.columns df) ∧
  (∀ c, c ∈ A ++ B ↔ c ∈ fc) ∧ NoDup (A ++ B).
Proof.
  intros fs ds A B. subst A B fs ds.
  assert (∀ c, c ∈ elements (list_to_set fc ∖ list_to_set (Pl.columns df) : gset string)
               ↔ c ∈ fc ∧ c ∉ Pl.columns df) as HA.
  { intros c. by rewrite elem_of_elements, elem_of_difference, !elem_of_list_to_set. }
  assert (∀ c, c ∈ elements (list_to_set fc ∩ list_to_set (Pl.columns df) : gset string)
               ↔ c ∈ fc ∧ c ∈ Pl.columns df) as HB.
  { intros c. by rewrite elem_of_elements, elem_of_intersection, !elem_of_list_to_set. }
  split; [by intros c [_ ?]%HA|]. split; [by intros c [_ ?]%HB|]. split.
  - intros c. rewrite elem_of_app, HA, HB. split; [by intros [[? _]|[? _]]|].
    intros Hc. destruct (decide (c ∈ Pl.columns df)); [by right|by left].
  - apply NoDup_app. split; [apply NoDup_elements|]. split; [|apply NoDup_elements].
    intros c [_ Hn]%HA [_ Hin]%HB. done.
Qed.

Lemma mapM_normalize_valid df fc feats c :
  mapM (normalize_column df) fc = Some feats → c ∈ fc →
  ∃ s, normalize_column df c = Some s ∧ is_Some (to_option (get_flat_col_dtype c)).
Proof.
  intros Hm%mapM_Some_1 Hc.
  apply list_elem_of_lookup in Hc as [i Hi].
  destruct (Forall2_lookup_l _ _ _ _ _ Hm Hi) as (s & _ & Hs).
  exists s. split; [done|]. apply normalize_column_dtype in Hs. rewrite Hs. by eexists.
Qed.

(** With counts kept, [add_missing_cols] returns the key columns of the
    input followed by the normalised canonical columns, and raises exactly
    when a key column is missing, a canonical name has no type or is
    repeated, or a cast fails. *)
Lemma add_missing_cols_keep_counts df fc :
  add_missing_cols df fc false = normalized df fc.
Proof.
  unfold add_missing_cols, normalized.
  destruct (cols_to_add_retype df fc) as (HA & HB & Hcov & HndAB).
  set (A := elements (list_to_set fc ∖ list_to_set (Pl.columns df))) in *.
  set (B := elements (list_to_set fc ∩ list_to_set (Pl.columns df))) in *.
  destruct (mapM (normalize_column df) fc) as [feats|] eqn:Hfeats.
  - assert (∀ c, c ∈ A ++ B → is_Some (to_option (get_flat_col_dtype c))) as Hvalid.
    { intros c Hc%Hcov. by destruct (mapM_normalize_valid _ _ _ _ Hfeats Hc) as (? & _ & ?). }
    destruct (with_dtypes_is_Some A) as [la Hla].
    { intros c Hc. apply Hvalid, elem_of_app. by left. }
    destruct (with_dtypes_is_Some B) as [lr Hlr].
    { intros c Hc. apply Hvalid, elem_of_app. by right. }
    rewrite Hla, Hlr. cbn [mbind option_bind].
    destruct (mapM_is_Some_2 (normalize_column df) (A ++ B)) as [new Hnew].
    { apply Forall_forall. intros c Hc%Hcov.
      destruct (mapM_normalize_valid _ _ _ _ Hfeats Hc) as (s & Hs & _).
      simpl. by rewrite Hs. }
    destruct (get_column_normalized _ _ _ Hnew HndAB) as [Hcols Hget].
    rewrite (with_columns_Some df _ new);
      [|by rewrite (eval_new_columns _ _ _ _ _ Hla Hlr HA HB)|by rewrite Hcols].
    cbn [mbind option_bind]. rewrite select_cols_eq, mapM_app.
    assert (∀ k, k ∈ key_cols df → k ∉ fc) as Hkey.
    { intros k Hk Hin. apply key_cols_no_dtype in Hk.
      destruct (mapM_normalize_valid _ _ _ _ Hfeats Hin) as (_ & _ & [dt Hdt]).
      congruence. }
    assert (mapM (λ c, Pl.get_column c (foldl Pl.upsert df new)) (key_cols df)
            = mapM (λ k, Pl.get_column k df) (key_cols df)) as ->.
    { apply Forall_mapM_ext, Forall_forall. intros k Hk.
      rewrite get_column_foldl_upsert, Hget by by rewrite Hcols.
      rewrite bool_decide_eq_false_2; [done|]. rewrite Hcov. by apply Hkey. }
    assert (mapM (λ c, Pl.get_column c (foldl Pl.upsert df new)) fc = Some feats) as ->.
    { rewrite <- Hfeats. apply Forall_mapM_ext, Forall_forall. intros c Hc.
      rewrite get_column_foldl_upsert, Hget by by rewrite Hcols.
      rewrite bool_decide_eq_true_2 by by apply Hcov.
      by destruct (mapM_normalize_valid _ _ _ _ Hfeats Hc) as (s & -> & _). }
    assert (bool_decide (NoDup (key_cols df ++ fc)) = bool_decide (NoDup fc)) as ->.
    { apply bool_decide_ext. rewrite NoDup_app. split; [by intros (_ & _ & ?)|].
      intros Hnd. split; [apply key_cols_NoDup|]. by split. }
    destruct (mapM _ (key_cols df)) as [keys|]; simpl; by case_bool_decide.
  - transitivity (@None Pl.DataFrame); [|by destruct (mapM _ (key_cols df))].
    destruct (with_dtypes A) as [la|] eqn:Hla; [|done].
    destruct (with_dtypes B) as [lr|] eqn:Hlr; [|done].
    cbn [mbind option_bind]. unfold Pl.with_columns.
    rewrite (eval_new_columns _ _ _ _ _ Hla Hlr HA HB).
    rewrite (mapM_None_2 (normalize_column df) (A ++ B)); [done|].
    apply mapM_None_1 in Hfeats. apply Exists_exists in Hfeats as (c & Hc & Hn).
    apply Exists_exists. exists c. split; [by apply Hcov|done].
Qed.

(** *** The zero-to-null pass *)

Lemma zip_keep_nonzero (vs : list (option Val)) :
  zip_with Pl.keep_nonzero vs vs = map zero_to_null vs.
Proof.
  induction vs as [|v vs IH]; simpl; [done|]. rewrite IH. f_equal.
  destruct v as [x|]; simpl; [|done]. by destruct (ne_zero x).
Qed.

Lemma nullify_name s : Pl.name (nullify s) = Pl.name s.
Proof. unfold nullify. by destruct (Py.endswith _ _). Qed.

Lemma nullify_dtype s : Pl.dtype (nullify s) = Pl.dtype s.
Proof. unfold nullify. by destruct (Py.endswith _ _). Qed.

Lemma zero_to_null_idemp v : zero_to_null (zero_to_null v) = zero_to_null v.
Proof.
  destruct v as [x|]; simpl; [|done].
  destruct (ne_zero x) eqn:E; simpl; [|done]. by rewrite E.
Qed.

Lemma nullify_idemp s : nullify (nullify s) = nullify s.
Proof.
  unfold nullify. destruct (Py.endswith (Pl.name s) "count") eqn:E; simpl; rewrite E; [|done].
  f_equal. rewrite map_map. apply map_ext. intros v. apply zero_to_null_idemp.
Qed.

Lemma columns_nullify df : Pl.columns (map nullify df) = Pl.columns df.
Proof.
  unfold Pl.columns. rewrite map_map. apply map_ext. intros s. apply nullify_name.
Qed.

Lemma get_column_nullify c df :
  Pl.get_column c (map nullify df) = nullify <$> Pl.get_column c df.
Proof.
  induction df as [|x df IH]; [done|].
  cbn [map]. rewrite !get_column_cons, nullify_name, IH.
  by destruct (String.eqb (Pl.name x) c).
Qed.

Lemma get_column_filter_name (P : string → bool) c df :
  Pl.get_column c (List.filter (λ s, P (Pl.name s)) df)
  = if P c then Pl.get_column c df else None.
Proof.
  induction df as [|x df IH]; simpl; [by destruct (P c)|].
  destruct (P (Pl.name x)) eqn:E; rewrite ?get_column_cons, IH;
    destruct (String.eqb_spec (Pl.name x) c) as [<-|_]; try done.
  - by rewrite E.
  - by rewrite E.
Qed.

Lemma filter_columns (P : string → bool) df :
  List.filter P (Pl.columns df) = Pl.columns (List.filter (λ s, P (Pl.name s)) df).
Proof.
  induction df as [|x df IH]; simpl; [done|].
  destruct (P (Pl.name x)); simpl; by rewrite IH.
Qed.

Lemma filter_columns_sub (P : Pl.Series → bool) df c :
  c ∈ Pl.columns (List.filter P df) → c ∈ Pl.columns df.
Proof.
  unfold Pl.columns. rewrite !list_elem_of_In, !in_map_iff.
  intros (s & Hs & Hin%filter_In). exists s. by destruct Hin.
Qed.

Lemma filter_columns_NoDup (P : Pl.Series → bool) df :
  NoDup (Pl.columns df) → NoDup (Pl.columns (List.filter P df)).
Proof.
  induction df as [|x df IH]; simpl; [done|]. intros [Hx Hnd]%NoDup_cons.
  destruct (P x); [|by apply IH].
  change (Pl.columns (x :: List.filter P df))
    with (Pl.name x :: Pl.columns (List.filter P df)).
  apply NoDup_cons. split; [|by apply IH].
  intros Hin. by apply Hx, (filter_columns_sub P).
Qed.

(** On a frame without duplicate names, the pass nullifies the columns
    whose name ends in [count], in place. *)
Lemma zero_counts_to_null_map df :
  NoDup (Pl.columns df) → zero_counts_to_null df = Some (map nullify df).
Proof.
  intros Hnd. unfold zero_counts_to_null, Pl.ends_with.
  rewrite (filter_columns (λ c, Py.endswith c "count")).
  set (counts := List.filter (λ s, Py.endswith (Pl.name s) "count") df).
  assert (mapM (Pl.eval df)
            (map (λ c, Pl.when_ne_zero_then (Pl.col c) (Pl.col c)) (Pl.columns counts))
          = Some (map nullify counts)) as Hnew.
  { unfold Pl.columns. rewrite map_map. apply mapM_Some_2.
    change (map ?f counts) with (f <$> counts).
    apply Forall2_fmap, Forall_Forall2_diag, Forall_forall.
    intros s [Hs Hc]%list_elem_of_In%filter_In. apply list_elem_of_In in Hs.
    cbn [Pl.eval]. rewrite (get_column_elem_of _ _ Hnd Hs). cbn [mbind option_bind].
    unfold nullify. by rewrite Hc, zip_keep_nonzero. }
  rewrite (with_columns_Some _ _ _ Hnew);
    [|rewrite columns_nullify; by apply filter_columns_NoDup].
  f_equal. apply frame_ext.
  - rewrite columns_nullify. apply columns_foldl_upsert, Forall_forall.
    intros s Hs. apply elem_of_columns in Hs. rewrite columns_nullify in Hs.
    by apply filter_columns_sub in Hs.
  - rewrite columns_foldl_upsert; [done|]. apply Forall_forall.
    intros s Hs. apply elem_of_columns in Hs. rewrite columns_nullify in Hs.
    by apply filter_columns_sub in Hs.
  - intros c _. rewrite get_column_foldl_upsert
      by (rewrite columns_nullify; by apply filter_columns_NoDup).
    rewrite !get_column_nullify. unfold counts.
    rewrite (get_column_filter_name (λ c, Py.endswith c "count")).
    destruct (Py.endswith c "count") eqn:E.
    + by destruct (Pl.get_column c df).
    + simpl. destruct (Pl.get_column c df) as [s|] eqn:Es; [|done].
      apply get_column_Some in Es as [<- _]. simpl. unfold nullify. by rewrite E.
Qed.

Lemma add_missing_cols_flag df fc :
  add_missing_cols df fc true = add_missing_cols df fc false ≫= zero_counts_to_null.
Proof.
  unfold add_missing_cols.
  destruct (with_dtypes (elements (list_to_set fc ∖ list_to_set (Pl.columns df))))
    as [la|]; simpl; [|done].
  destruct (with_dtypes (elements (list_to_set fc ∩ list_to_set (Pl.columns df))))
    as [lr|]; simpl; [|done].
  destruct (Pl.with_columns _ _) as [df1|]; simpl; [|done].
  by destruct (Pl.select _ _) as [out|].
Qed.

(** *** What a normalised frame looks like *)

Lemma normalized_Some df fc out :
  normalized df fc = Some out ↔
  ∃ keys feats,
    mapM (λ k, Pl.get_column k df) (key_cols df) = Some keys ∧
    mapM (normalize_column df) fc = Some feats ∧
    NoDup fc ∧ out = keys ++ feats.
Proof.
  unfold normalized. split.
  - intros (keys & Hk & (feats & Hf & Hc)%bind_Some)%bind_Some.
    case_bool_decide; [|done]. injection Hc as <-. by exists keys, feats.
  - intros (keys & feats & Hk & Hf & Hnd & ->). rewrite Hk, Hf. simpl.
    by rewrite bool_decide_eq_true_2.
Qed.

Lemma key_cols_columns df1 df2 :
  ("timestamp" ∈ Pl.columns df1 ↔ "timestamp" ∈ Pl.columns df2) →
  key_cols df1 = key_cols df2.
Proof.
  intros Hiff. rewrite !key_cols_cases.
  by rewrite (bool_decide_ext _ _ Hiff).
Qed.

Lemma normalized_inv df fc out :
  normalized df fc = Some out →
  Pl.columns out = key_cols df ++ fc ∧ NoDup (Pl.columns out) ∧
  key_cols out = key_cols df ∧
  (∀ k, k ∈ key_cols df → Pl.get_column k out = Pl.get_column k df) ∧
  (∀ c, c ∈ fc → Pl.get_column c out = normalize_column df c) ∧
  (∀ s, s ∈ out → Pl.name s ∈ fc → get_flat_col_dtype (Pl.name s) = Ok (Pl.dtype s)).
Proof.
  intros (keys & feats & Hk & Hf & Hnd & ->)%normalized_Some.
  pose proof (mapM_get_column_names _ _ _ Hk) as Hkn.
  destruct (get_column_normalized _ _ _ Hf Hnd) as [Hfn Hfg].
  assert (∀ k, k ∈ key_cols df → k ∉ fc) as Hdisj.
  { intros k Hk' Hin. apply key_cols_no_dtype in Hk'.
    destruct (mapM_normalize_valid _ _ _ _ Hf Hin) as (_ & _ & [dt Hdt]). congruence. }
  assert (Pl.columns (keys ++ feats) = key_cols df ++ fc) as Hcols.
  { unfold Pl.columns in *. by rewrite map_app, Hkn, Hfn. }
  assert (NoDup (key_cols df ++ fc)) as Hnd'.
  { apply NoDup_app. split; [apply key_cols_NoDup|]. by split. }
  split; [done|]. split; [by rewrite Hcols|]. split; [|split; [|split]].
  - apply key_cols_columns. rewrite Hcols, elem_of_app, key_cols_cases.
    split.
    + intros [Hin|Hin].
      * case_bool_decide as Ht; [done|].
        by apply list_elem_of_singleton in Hin.
      * destruct (mapM_normalize_valid _ _ _ _ Hf Hin) as (_ & _ & [dt Hdt]). done.
    + intros Ht. left. rewrite bool_decide_eq_true_2 by done.
      apply list_elem_of_further, list_elem_of_here.
  - intros k Hk'. rewrite get_column_app.
    assert (Pl.get_column k feats = None) as ->.
    { rewrite Hfg. rewrite bool_decide_eq_false_2; [done|]. by apply Hdisj. }
    apply list_elem_of_lookup in Hk' as [i Hi].
    apply mapM_Some_1 in Hk.
    destruct (Forall2_lookup_l _ _ _ _ _ Hk Hi) as (s & Hs & Hget).
    rewrite Hget.
    assert (Pl.get_column k keys = Some s) as ->; [|done].
    apply get_column_Some in Hget as [<- _].
    apply get_column_elem_of; [by rewrite Hkn; apply key_cols_NoDup|].
    by eapply list_elem_of_lookup_2.
  - intros c Hc. rewrite get_column_app.
    assert (Pl.get_column c keys = None) as ->.
    { apply get_column_None. rewrite Hkn. intros Hin. by apply (Hdisj c). }
    rewrite Hfg. by rewrite bool_decide_eq_true_2.
  - intros s [Hs|Hs]%elem_of_app Hin.
    + apply elem_of_columns in Hs. rewrite Hkn in Hs. by destruct (Hdisj _ Hs).
    + apply list_elem_of_lookup in Hs as [i Hi]. apply mapM_Some_1 in Hf.
      destruct (Forall2_lookup_r _ _ _ _ _ Hf Hi) as (c & _ & Hn).
      rewrite (normalize_column_name _ _ _ Hn). by apply normalize_column_dtype in Hn.
Qed.

Lemma lookup_map {A B} (f : A → B) (l : list A) i : map f l !! i = f <$> l !! i.
Proof. apply (list_lookup_fmap f l i). Qed.

(** C3, amended: for an input frame that has a [patient_id] column and
    a canonical list without repetition whose names all have a type and
    whose casts succeed, [add_missing_cols] with counts kept returns a
    frame whose columns are the key columns followed by the canonical
    columns in their order; the key columns are [patient_id, timestamp]
    when the input has a [timestamp] column and [patient_id] otherwise, and
    are taken over unchanged; a canonical column the input lacks is an
    all-null column of the type of its name and of the height of the input;
    a canonical column the input has is that column cast to the type of
    its name; every other input column is dropped. *)
Theorem add_missing_cols_columns df (fc : list string) :
  "patient_id" ∈ Pl.columns df →
  NoDup fc →
  (∀ c, c ∈ fc →
     ∃ dt, get_flat_col_dtype c = Ok dt ∧
           ∀ s, Pl.get_column c df = Some s →
                is_Some (cast (Pl.dtype s) dt (Pl.values s))) →
  ∃ out,
    add_missing_cols df fc false = Some out ∧
    Pl.columns out = key_cols df ++ fc ∧
    key_cols df = (if bool_decide ("timestamp" ∈ Pl.columns df)
                   then ["patient_id"; "timestamp"] else ["patient_id"]) ∧
    (∀ k, k ∈ key_cols df → Pl.get_column k out = Pl.get_column k df) ∧
    (∀ c dt, c ∈ fc → c ∉ Pl.columns df → get_flat_col_dtype c = Ok dt →
       Pl.get_column c out = Some (null_series c dt (Pl.height df))) ∧
    (∀ c dt s, c ∈ fc → Pl.get_column c df = Some s → get_flat_col_dtype c = Ok dt →
       ∃ vs, cast (Pl.dtype s) dt (Pl.values s) = Some vs ∧
             Pl.get_column c out
             = Some {| Pl.name := c; Pl.dtype := dt; Pl.values := vs |}) ∧
    (∀ c, c ∈ Pl.columns out → c ∈ key_cols df ∨ c ∈ fc).
Proof.
  intros Hpid Hnd Hvalid.
  assert (∃ keys, mapM (λ k, Pl.get_column k df) (key_cols df) = Some keys) as [keys Hk].
  { apply mapM_is_Some_2, Forall_forall. intros k Hk. simpl.
    assert (k ∈ Pl.columns df) as Hin.
    { rewrite key_cols_cases in Hk. case_bool_decide as Ht.
      - apply elem_of_cons in Hk as [Hk|Hk]; [by subst k|].
        apply list_elem_of_singleton in Hk. by subst k.
      - apply list_elem_of_singleton in Hk. by subst k. }
    destruct (get_column_is_Some _ _ Hin) as [s ->]. by eexists. }
  assert (∃ feats, mapM (normalize_column df) fc = Some feats) as [feats Hf].
  { apply mapM_is_Some_2, Forall_forall. intros c Hc. simpl.
    destruct (Hvalid c Hc) as (dt & Hdt & Hcast). unfold normalize_column.
    rewrite Hdt. simpl. destruct (Pl.get_column c df) as [s|]; [|by eexists].
    destruct (Hcast s eq_refl) as [vs ->]. by eexists. }
  exists (keys ++ feats).
  assert (normalized df fc = Some (keys ++ feats)) as Hn.
  { apply normalized_Some. by exists keys, feats. }
  destruct (normalized_inv _ _ _ Hn) as (Hcols & _ & _ & Hkeys & Hfeats & _).
  split; [by rewrite add_missing_cols_keep_counts|]. split; [done|].
  split; [apply key_cols_cases|]. split; [done|]. split; [|split].
  - intros c dt Hc Hnin Hdt. rewrite (Hfeats c Hc). unfold normalize_column.
    rewrite Hdt. simpl. apply get_column_None in Hnin. by rewrite Hnin.
  - intros c dt s Hc Hs Hdt. rewrite (Hfeats c Hc). unfold normalize_column.
    rewrite Hdt, Hs. simpl. destruct (Hvalid c Hc) as (dt' & Hdt' & Hcast).
    assert (dt' = dt) as -> by congruence.
    destruct (Hcast s Hs) as [vs Hvs]. exists vs. by rewrite Hvs.
  - intros c. rewrite Hcols, elem_of_app. tauto.
Qed.

(** C6: with the zero-to-null flag set, [add_missing_cols] returns the
    frame it returns without the flag, except that in every column whose
    name ends in [count] each value equal to 0 is null; the non-zero values
    and the nulls of those columns, and every column whose name does not
    end in [count], are unchanged. *)
Theorem zero_to_null_counts df (fc : list string) (out : Pl.DataFrame) :
  add_missing_cols df fc false = Some out →
  ∃ out',
    add_missing_cols df fc true = Some out' ∧
    length out' = length out ∧
    ∀ i s, out !! i = Some s →
      ∃ s', out' !! i = Some s' ∧
        Pl.name s' = Pl.name s ∧ Pl.dtype s' = Pl.dtype s ∧
        length (Pl.values s') = length (Pl.values s) ∧
        (Py.endswith (Pl.name s) "count" = false → s' = s) ∧
        (Py.endswith (Pl.name s) "count" = true →
           ∀ j,
             (Pl.values s !! j = Some None → Pl.values s' !! j = Some None) ∧
             (∀ x, Pl.values s !! j = Some (Some x) → ne_zero x = false →
                   Pl.values s' !! j = Some None) ∧
             (∀ x, Pl.values s !! j = Some (Some x) → ne_zero x = true →
                   Pl.values s' !! j = Some (Some x))).
Proof.
  intros Hout. exists (map nullify out).
  pose proof Hout as Hn. rewrite add_missing_cols_keep_counts in Hn.
  destruct (normalized_inv _ _ _ Hn) as (_ & Hnd & _).
  split; [by rewrite add_missing_cols_flag, Hout; apply zero_counts_to_null_map|].
  split; [apply length_map|].
  intros i s Hi. exists (nullify s).
  split; [trans (nullify <$> out !! i); [apply lookup_map|by rewrite Hi]|].
  split; [apply nullify_name|]. split; [apply nullify_dtype|].
  unfold nullify. destruct (Py.endswith (Pl.name s) "count"); simpl.
  - split; [apply length_map|]. split; [done|]. intros _ j.
    rewrite lookup_map. repeat split.
    + by intros ->.
    + intros x -> Hx. simpl. by rewrite Hx.
    + intros x -> Hx. simpl. by rewrite Hx.
  - by repeat split.
Qed.

(** *** Idempotence *)

Section idempotence.
(** Casting a column to the type it already has changes nothing. *)
Hypothesis cast_same : ∀ dt vs, cast dt dt vs = Some vs.

Lemma normalize_column_fixed df c s :
  Pl.get_column c df = Some s → get_flat_col_dtype c = Ok (Pl.dtype s) →
  normalize_column df c = Some s.
Proof.
  intros Hs Hdt. unfold normalize_column. rewrite Hdt, Hs. simpl.
  rewrite cast_same. simpl. apply get_column_Some in Hs as [<- _]. by destruct s.
Qed.

(** A frame that has the shape of a normalised frame is normalised to
    itself. *)
Lemma normalized_fixed t fc :
  NoDup (Pl.columns t) → Pl.columns t = key_cols t ++ fc →
  (∀ s, s ∈ t → Pl.name s ∈ fc → get_flat_col_dtype (Pl.name s) = Ok (Pl.dtype s)) →
  normalized t fc = Some t.
Proof.
  intros Hnd Hcols Hdt. apply normalized_Some.
  pose proof (mapM_get_column_self t Hnd) as Hself.
  rewrite Hcols, mapM_app in Hself.
  apply bind_Some in Hself as (keys & Hk & (feats & Hf & [= Ht])%bind_Some).
  exists keys, feats. split; [done|]. split; [|split; [|done]].
  - rewrite <- Hf. apply Forall_mapM_ext, Forall_forall. intros c Hc.
    assert (c ∈ Pl.columns t) as Hin by (rewrite Hcols, elem_of_app; by right).
    destruct (get_column_is_Some _ _ Hin) as [s Hs]. rewrite Hs.
    apply normalize_column_fixed; [done|].
    apply get_column_Some in Hs as [<- Hs]. by apply Hdt.
  - rewrite Hcols in Hnd. by apply NoDup_app in Hnd as (_ & _ & ?).
Qed.

Lemma add_missing_cols_keep_counts_fixed df fc t :
  add_missing_cols df fc false = Some t → add_missing_cols t fc false = Some t.
Proof.
  rewrite !add_missing_cols_keep_counts. intros Hn.
  destruct (normalized_inv _ _ _ Hn) as (Hcols & Hnd & Hkey & _ & _ & Hdt).
  apply normalized_fixed; [done|by rewrite Hkey|done].
Qed.

(** C7: for an engine whose cast of a column to the type it already has
returns the column, normalising an already normalised frame, against the
same canonical list and with the same flag, changes nothing; when the first
normalisation raises, so does the composition. *)
Theorem add_missing_cols_idempotent df (fc : list string) (z : bool) :
  (add_missing_cols df fc z ≫= λ t, add_missing_cols t fc z)
  = add_missing_cols df fc z.
Proof.
  destruct z.
  - rewrite add_missing_cols_flag.
    destruct (add_missing_cols df fc false) as [t|] eqn:Ht; [|done].
    pose proof Ht as Hn. rewrite add_missing_cols_keep_counts in Hn.
    destruct (normalized_inv _ _ _ Hn) as (Hcols & Hnd & Hkey & _ & _ & Hdt).
    cbn [mbind option_bind]. rewrite (zero_counts_to_null_map t Hnd).
    cbn [mbind option_bind]. rewrite add_missing_cols_flag, add_missing_cols_keep_counts.
    rewrite (normalized_fixed (map nullify t) fc).
    + cbn [mbind option_bind].
      rewrite zero_counts_to_null_map by by rewrite columns_nullify.
      f_equal. rewrite map_map. apply map_ext. intros s. apply nullify_idemp.
    + by rewrite columns_nullify.
    + rewrite columns_nullify, Hcols. f_equal. rewrite <- Hkey.
      apply key_cols_columns. by rewrite columns_nullify.
    + intros s' Hs' Hin. apply list_elem_of_In, in_map_iff in Hs' as (s & <- & Hs).
      apply list_elem_of_In in Hs. rewrite nullify_name in Hin |- *.
      rewrite nullify_dtype. by apply Hdt.
  - destruct (add_missing_cols df fc false) as [t|] eqn:Ht; [|done].
    cbn [mbind option_bind]. exact (add_missing_cols_keep_counts_fixed _ _ _ Ht).
Qed.

End idempotence.

End add_missing_cols_properties.

(** C3, as stated, fails: the canonical list [A/count], a dynamic name as
    [get_ts_feature_cols] makes them, yields no frame at all; the key columns
    of the result are [patient_id, timestamp], not [subject_id, timestamp];
    and a frame keyed by [subject_id] is refused. *)
Lemma add_missing_cols_not_total :
  @add_missing_cols Sample.int_engine Sample.flat_df ["A/count"] false = None
  ∧ (@Pl.columns Sample.int_engine
       <$> @add_missing_cols Sample.int_engine Sample.flat_df Sample.feature_columns false)
    = Some ["patient_id"; "timestamp"; "static/A/present"; "static/B/first"; "w/A/count"]
  ∧ @add_missing_cols Sample.int_engine
      [Sample.series "subject_id" Int64 [Some 1%Z]; Sample.series "timestamp" Datetime [None]]
      ["static/A/present"] false = None.
Proof. repeat split; vm_compute; reflexivity. Qed.

Lemma add_missing_cols_columns_witness :
  "patient_id" ∈ @Pl.columns Sample.int_engine Sample.flat_df ∧
  NoDup Sample.feature_columns ∧
  ∃ out,
    @add_missing_cols Sample.int_engine Sample.flat_df Sample.feature_columns false = Some out ∧
    @Pl.columns Sample.int_engine out
    = ["patient_id"; "timestamp"; "static/A/present"; "static/B/first"; "w/A/count"].
Proof.
  assert ("patient_id" ∈ @Pl.columns Sample.int_engine Sample.flat_df) as Hpid
    by apply list_elem_of_here.
  assert (NoDup Sample.feature_columns) as Hnd
    by (apply (bool_decide_unpack _); vm_compute; exact I).
  split; [exact Hpid|]. split; [exact Hnd|].
  destruct (@add_missing_cols_columns Sample.int_engine Sample.flat_df
              Sample.feature_columns Hpid Hnd) as (out & Hout & Hcols & _).
  - intros c Hc. unfold Sample.feature_columns in Hc.
    apply elem_of_cons in Hc as [->|Hc]; [|apply elem_of_cons in Hc as [->|Hc]].
    + exists Boolean. split; [reflexivity|]. intros s Hs. discriminate Hs.
    + exists Float32. split; [reflexivity|]. intros s Hs.
      vm_compute in Hs. injection Hs as <-. eexists. reflexivity.
    + apply list_elem_of_singleton in Hc as ->.
      exists UInt32. split; [reflexivity|]. intros s Hs.
      vm_compute in Hs. injection Hs as <-. eexists. reflexivity.
  - exists out. split; [exact Hout|]. rewrite Hcols. reflexivity.
Defined.

Lemma zero_to_null_counts_witness :
  @add_missing_cols Sample.int_engine Sample.flat_df Sample.feature_columns false
  = Some [ Sample.series "patient_id" Int64 [Some 1%Z; Some 2%Z];
           Sample.series "timestamp" Datetime [Some 10%Z; Some 20%Z];
           Sample.series "static/A/present" Boolean [None; None];
           Sample.series "static/B/first" Float32 [Some 7%Z; None];
           Sample.series "w/A/count" UInt32 [Some 0%Z; Some 3%Z] ]
  ∧ ∃ out',
      @add_missing_cols Sample.int_engine Sample.flat_df Sample.feature_columns true
      = Some out' ∧ length out' = 5.
Proof.
  assert (@add_missing_cols Sample.int_engine Sample.flat_df Sample.feature_columns false
          = Some [ Sample.series "patient_id" Int64 [Some 1%Z; Some 2%Z];
                   Sample.series "timestamp" Datetime [Some 10%Z; Some 20%Z];
                   Sample.series "static/A/present" Boolean [None; None];
                   Sample.series "static/B/first" Float32 [Some 7%Z; None];
                   Sample.series "w/A/count" UInt32 [Some 0%Z; Some 3%Z] ]) as Hout
    by (vm_compute; reflexivity).
  split; [exact Hout|].
  destruct (@zero_to_null_counts Sample.int_engine _ _ _ Hout) as (out' & Ht & Hlen & _).
  exists out'. split; [exact Ht|exact Hlen].
Defined.

Example zero_to_null_counts_sample :
  @add_missing_cols Sample.int_engine Sample.flat_df Sample.feature_columns true
  = Some [ Sample.series "patient_id" Int64 [Some 1%Z; Some 2%Z];
           Sample.series "timestamp" Datetime [Some 10%Z; Some 20%Z];
           Sample.series "static/A/present" Boolean [None; None];
           Sample.series "static/B/first" Float32 [Some 7%Z; None];
           Sample.series "w/A/count" UInt32 [None; Some 3%Z] ].
Proof. vm_compute. reflexivity. Qed.

Lemma add_missing_cols_idempotent_witness :
  (∀ dt vs, @cast Sample.int_engine dt dt vs = Some vs) ∧
  (@add_missing_cols Sample.int_engine Sample.flat_df Sample.feature_columns true
     ≫= λ t, @add_missing_cols Sample.int_engine t Sample.feature_columns true)
  = @add_missing_cols Sample.int_engine Sample.flat_df Sample.feature_columns true.
Proof.
  assert (∀ dt vs, @cast Sample.int_engine dt dt vs = Some vs) as Hcast.
  { intros dt vs. simpl. unfold Sample.int_cast.
    rewrite bool_decide_eq_true_2; reflexivity. }
  split; [exact Hcast|].
  exact (@add_missing_cols_idempotent Sample.int_engine Hcast
           Sample.flat_df Sample.feature_columns true).
Defined.

(** * Further properties of the source *)

(** ** More on strings *)

Lemma append_assoc (a b c : string) : (a +:+ b) +:+ c = a +:+ b +:+ c.
Proof.
  induction a as [|x a IH]; [done|].
  change (String x ((a +:+ b) +:+ c) = String x (a +:+ b +:+ c)). by rewrite IH.
Qed.




Lemma endswith_refl s : Py.endswith s s = true.
Proof. destruct s; simpl; by rewrite ?Ascii.eqb_refl, ?String.eqb_refl. Qed.

Lemma endswith_append (a b : string) : Py.endswith (a +:+ b) b = true.
Proof.
  induction a as [|x a IH]; [apply endswith_refl|].
  change (Py.endswith (String x (a +:+ b)) b = true).
  cbn [Py.endswith]. rewrite IH. apply orb_true_r.
Qed.

Lemma join_snoc sep (l : list string) x :
  l ≠ [] → Py.join sep (l ++ [x]) = Py.join sep l +:+ sep +:+ x.
Proof.
  induction l as [|y [|z l] IH]; [done|done|]. intros _.
  change ((y :: z :: l) ++ [x]) with (y :: (z :: l) ++ [x]).
  change ((z :: l) ++ [x]) with (z :: l ++ [x]) at 1.
  rewrite join_cons. change (z :: l ++ [x]) with ((z :: l) ++ [x]).
  rewrite IH by done. rewrite join_cons. by rewrite !append_assoc.
Qed.

(** ** The parser as a decoder *)

(** X1: a name is parsed into a triple exactly when it is the triple written
    with two slashes, the first and the last part being free of slashes; the
    code in the middle may contain slashes and comes back unchanged. *)
Theorem parse_flat_feature_column_inverse (c code_type code agg : string) :
  parse_flat_feature_column c = Ok (code_type, code, agg) ↔
  c = code_type +:+ "/" +:+ code +:+ "/" +:+ agg ∧ slash_free code_type ∧ slash_free agg.
Proof.
  split.
  - intros Hp.
    destruct (decide (length (Py.split slash c) < 3)) as [Hl|Hl];
      [by rewrite parse_short in Hp|].
    destruct (list_ends (Py.split slash c)) as (p0 & mid & pl & Hs); [lia|].
    assert (mid ≠ []) as Hmid.
    { intros ->. rewrite Hs in Hl. simpl in Hl. lia. }
    rewrite (parse_long _ _ _ _ Hs Hmid) in Hp. injection Hp as <- <- <-.
    pose proof (split_segments_slash_free c) as Hfree. rewrite Hs in Hfree.
    apply Forall_cons in Hfree as [H0 Hfree]. apply Forall_app in Hfree as [_ Hl'].
    rewrite Forall_singleton in Hl'. split; [|by split].
    rewrite <- (join_split c), Hs at 1.
    destruct mid as [|m mid]; [done|].
    change (p0 :: (m :: mid) ++ [pl]) with (p0 :: m :: mid ++ [pl]).
    rewrite join_cons. change (m :: mid ++ [pl]) with ((m :: mid) ++ [pl]).
    by rewrite join_snoc.
  - intros (-> & Ht & Ha).
    rewrite <- (join_split code) at 2.
    apply parse_long; [|apply split_nonempty].
    change (code_type +:+ "/" +:+ code +:+ "/" +:+ agg)
      with (code_type +:+ String slash (code +:+ String slash agg)).
    by rewrite !split_app_sep, (split_slash_free code_type), (split_slash_free agg).
Qed.

Lemma parse_flat_feature_column_inverse_witness :
  parse_flat_feature_column "static/LAB/a1c/first" = Ok ("static", "LAB/a1c", "first") ∧
  "static/LAB/a1c/first" = "static" +:+ "/" +:+ "LAB/a1c" +:+ "/" +:+ "first".
Proof.
  assert (parse_flat_feature_column "static/LAB/a1c/first"
          = Ok ("static", "LAB/a1c", "first")) as Hp by reflexivity.
  split; [exact Hp|].
  exact (proj1 (proj1 (parse_flat_feature_column_inverse _ _ _ _) Hp)).
Defined.

(** ** The catalog *)



Lemma elem_of_static_aggregations x c :
  x ∈ static_aggregations c ↔
  x = "static/" +:+ c +:+ "/present" ∨ x = "static/" +:+ c +:+ "/first".
Proof.
  unfold static_aggregations. rewrite elem_of_cons, list_elem_of_singleton. done.
Qed.



Lemma get_static_feature_cols_perm shard_df :
  get_static_feature_cols shard_df
  ≡ₚ elements (static_codes shard_df) ≫= static_aggregations.
Proof.
  unfold get_static_feature_cols. by rewrite extend_loop, app_nil_l, sorted_perm.
Qed.





Lemma elem_of_ts_codes c shard_df :
  c ∈ ts_codes shard_df ↔ ∃ r, r ∈ shard_df ∧ timestamp r ≠ None ∧ code r = c.
Proof.
  unfold ts_codes. rewrite elem_of_list_to_set, list_elem_of_In, in_map_iff.
  split.
  - intros (r & Hc & [Hr Hn]%filter_In). exists r. rewrite list_elem_of_In.
    repeat split; [done| |done]. by destruct (timestamp r).
  - intros (r & Hr & Hn & Hc). exists r. split; [done|].
    apply filter_In. rewrite <- list_elem_of_In. split; [done|].
    by destruct (timestamp r).
Qed.

Lemma elem_of_ts_aggregations x aggs c :
  x ∈ ts_aggregations aggs c ↔ ∃ agg, agg ∈ aggs ∧ x = c +:+ "/" +:+ agg.
Proof.
  unfold ts_aggregations. rewrite list_elem_of_In, in_map_iff.
  setoid_rewrite <- list_elem_of_In. split.
  - intros (agg & <- & Hin). eauto.
  - intros (agg & Hin & ->). eauto.
Qed.

Lemma length_ts_bind aggs (codes : list string) :
  length (codes ≫= ts_aggregations aggs) = length codes * length aggs.
Proof.
  induction codes as [|c l IH]; [done|].
  rewrite bind_cons, length_app, IH. unfold ts_aggregations.
  rewrite length_map. simpl. lia.
Qed.

Lemma get_ts_feature_cols_perm aggs shard_df :
  get_ts_feature_cols aggs shard_df
  ≡ₚ elements (ts_codes shard_df) ≫= ts_aggregations aggs.
Proof.
  unfold get_ts_feature_cols. by rewrite extend_loop, app_nil_l, sorted_perm.
Qed.

(** X3: [get_ts_feature_cols] returns, sorted by full name, the names
    [code/agg] of the distinct codes of the rows that have a timestamp and of
    the configured aggregations, one per code and position of the aggregation
    list, whatever the order in which the distinct codes come; without
    aggregations or without timestamped rows the list is empty. *)
Theorem get_ts_feature_cols_sorted (aggs : list string) (shard_df : list Event) :
  let cols := get_ts_feature_cols aggs shard_df in
  Sorted str_le cols
  ∧ (∀ x, x ∈ cols ↔
       ∃ r agg, r ∈ shard_df ∧ timestamp r ≠ None ∧ agg ∈ aggs ∧
                x = code r +:+ "/" +:+ agg)
  ∧ length cols = size (ts_codes shard_df) * length aggs
  ∧ (∀ codes, codes ≡ₚ elements (ts_codes shard_df) →
       Py.sorted (codes ≫= ts_aggregations aggs) = cols).
Proof.
  intros cols. subst cols.
  split; [apply sorted_Sorted|]. split; [|split].
  - intros x. rewrite get_ts_feature_cols_perm, list_elem_of_bind. split.
    + intros (c & (agg & Hagg & ->)%elem_of_ts_aggregations & Hc).
      apply elem_of_elements, elem_of_ts_codes in Hc as (r & Hr & Hn & <-).
      by exists r, agg.
    + intros (r & agg & Hr & Hn & Hagg & ->). exists (code r). split.
      * apply elem_of_ts_aggregations. eauto.
      * apply elem_of_elements, elem_of_ts_codes. eauto.
  - by rewrite get_ts_feature_cols_perm, length_ts_bind.
  - intros codes Hp. unfold get_ts_feature_cols. rewrite extend_loop, app_nil_l.
    apply sorted_order_independent. by rewrite Hp.
Qed.

Lemma get_ts_feature_cols_sorted_witness :
  ["A"; "B"; "C"] ≡ₚ elements (ts_codes Sample.shard_df) ∧
  Py.sorted (["A"; "B"; "C"] ≫= ts_aggregations ["sum"; "count"])
  = get_ts_feature_cols ["sum"; "count"] Sample.shard_df ∧
  get_ts_feature_cols ["sum"; "count"] Sample.shard_df
  = ["A/count"; "A/sum"; "B/count"; "B/sum"; "C/count"; "C/sum"].
Proof.
  assert (["A"; "B"; "C"] ≡ₚ elements (ts_codes Sample.shard_df)) as Hp.
  { vm_compute. symmetry. apply (Permutation_cons_append ["A"; "B"] "C"). }
  split; [exact Hp|]. split; [|vm_compute; reflexivity].
  exact (proj2 (proj2 (proj2
    (get_ts_feature_cols_sorted ["sum"; "count"] Sample.shard_df))) _ Hp).
Defined.

(** ** When normalisation raises, and what it depends on *)

Section add_missing_cols_further.
Context `{Engine}.

Implicit Types (df : Pl.DataFrame) (s : Pl.Series) (c : string).

Lemma normalize_column_is_Some df c :
  is_Some (normalize_column df c) ↔
  ∃ dt, get_flat_col_dtype c = Ok dt ∧
        ∀ s, Pl.get_column c df = Some s → is_Some (cast (Pl.dtype s) dt (Pl.values s)).
Proof.
  unfold normalize_column. destruct (get_flat_col_dtype c) as [dt|e]; simpl.
  - destruct (Pl.get_column c df) as [s|]; simpl.
    + destruct (cast (Pl.dtype s) dt (Pl.values s)) as [vs|] eqn:E; simpl.
      * split; [|by eexists]. intros _. exists dt. split; [done|].
        intros s' [= <-]. rewrite E. by eexists.
      * split; [by intros [? ?]|]. intros (dt' & [= <-] & Hc).
        destruct (Hc s eq_refl) as [vs Hvs]. congruence.
    + split; [|by eexists]. intros _. exists dt. by split.
  - split; [by intros [? ?]|]. by intros (dt & ? & _).
Qed.

Lemma key_cols_is_Some df :
  is_Some (mapM (λ k, Pl.get_column k df) (key_cols df)) ↔ "patient_id" ∈ Pl.columns df.
Proof.
  rewrite mapM_is_Some, Forall_forall. split.
  - intros Hall. destruct (Hall "patient_id") as [s Hs].
    + rewrite key_cols_cases. case_bool_decide; apply list_elem_of_here.
    + simpl in Hs. apply get_column_Some in Hs as [<- Hs]. by apply elem_of_columns.
  - intros Hpid k Hk. simpl. assert (k ∈ Pl.columns df) as Hin.
    { rewrite key_cols_cases in Hk. case_bool_decide as Ht.
      - apply elem_of_cons in Hk as [Hk|Hk]; [by subst k|].
        apply list_elem_of_singleton in Hk. by subst k.
      - apply list_elem_of_singleton in Hk. by subst k. }
    destruct (get_column_is_Some _ _ Hin) as [s ->]. by eexists.
Qed.

Lemma normalized_is_Some df fc : is_Some (normalized df fc) ↔ normalizable df fc.
Proof.
  unfold normalizable. rewrite <- key_cols_is_Some. split.
  - intros [out (keys & feats & Hk & Hf & Hnd & _)%normalized_Some].
    split; [by rewrite Hk; eexists|]. split; [done|].
    intros c Hc. apply normalize_column_is_Some.
    destruct (mapM_normalize_valid _ _ _ _ Hf Hc) as (s & -> & _). by eexists.
  - intros ([keys Hk] & Hnd & Hvalid).
    destruct (mapM_is_Some_2 (normalize_column df) fc) as [feats Hf].
    { apply Forall_forall. intros c Hc. by apply normalize_column_is_Some, Hvalid. }
    exists (keys ++ feats). apply normalized_Some. by exists keys, feats.
Qed.

Lemma add_missing_cols_flag_is_Some df fc z :
  is_Some (add_missing_cols df fc z) ↔ is_Some (normalized df fc).
Proof.
  destruct z; [|by rewrite add_missing_cols_keep_counts].
  rewrite add_missing_cols_flag, add_missing_cols_keep_counts.
  destruct (normalized df fc) as [out|] eqn:Hn; simpl; [|done].
  destruct (normalized_inv _ _ _ Hn) as (_ & Hnd & _).
  rewrite (zero_counts_to_null_map _ Hnd). split; by eexists.
Qed.



(** A canonical list that holds one name without a type makes
    [add_missing_cols] raise, whatever the input frame and the flag. *)
Lemma add_missing_cols_untyped_name df fc z c :
  c ∈ fc → is_ok (get_flat_col_dtype c) = false → add_missing_cols df fc z = None.
Proof.
  intros Hc Hbad. apply eq_None_not_Some. intros Hsome.
  apply add_missing_cols_flag_is_Some, normalized_is_Some in Hsome as (_ & _ & Hvalid).
  destruct (Hvalid c Hc) as (dt & Hdt & _). by rewrite Hdt in Hbad.
Qed.


(** X6: a catalog that holds a dynamic name of two segments is refused: as
    soon as a row with a timestamp has a code without a slash and one
    configured aggregation has no slash, [add_missing_cols] raises on the
    catalog [get_flat_rep_feature_cols] returns, whatever the input frame. *)
Theorem dynamic_catalog_refused df (aggs : list string) (shard_df : list Event)
    (z : bool) (r : Event) (agg : string) :
  r ∈ shard_df → timestamp r ≠ None → slash_free (code r) →
  agg ∈ aggs → slash_free agg →
  code r +:+ "/" +:+ agg ∈ get_flat_rep_feature_cols aggs shard_df ∧
  add_missing_cols df (get_flat_rep_feature_cols aggs shard_df) z = None.
Proof.
  intros Hr Hn Hcode Hagg Hfree.
  assert (code r +:+ "/" +:+ agg ∈ get_flat_rep_feature_cols aggs shard_df) as Hin.
  { unfold get_flat_rep_feature_cols. apply elem_of_app. right.
    rewrite get_ts_feature_cols_perm, list_elem_of_bind. exists (code r). split.
    - apply elem_of_ts_aggregations. eauto.
    - apply elem_of_elements, elem_of_ts_codes. eauto. }
  split; [done|]. apply (add_missing_cols_untyped_name _ _ _ _ Hin).
  rewrite get_flat_col_dtype_short; [done|].
  change (code r +:+ "/" +:+ agg) with (code r +:+ String slash agg).
  rewrite split_app_sep, !split_slash_free by done. simpl. lia.
Qed.

Lemma normalize_column_agree df1 df2 c :
  Pl.height df1 = Pl.height df2 → Pl.get_column c df1 = Pl.get_column c df2 →
  normalize_column df1 c = normalize_column df2 c.
Proof. intros Hh Hg. unfold normalize_column. by rewrite Hh, Hg. Qed.

Lemma add_missing_cols_agree df1 df2 (fc : list string) (z : bool) :
  Pl.height df1 = Pl.height df2 →
  (∀ c, c ∈ "patient_id" :: "timestamp" :: fc →
        Pl.get_column c df1 = Pl.get_column c df2) →
  add_missing_cols df1 fc z = add_missing_cols df2 fc z.
Proof.
  intros Hh Hget.
  assert (normalized df1 fc = normalized df2 fc) as Hn.
  { unfold normalized.
    assert (key_cols df1 = key_cols df2) as Hk.
    { apply key_cols_columns.
      assert (∀ df, "timestamp" ∈ Pl.columns df
                    ↔ is_Some (Pl.get_column "timestamp" df)) as Hiff.
      { intros df. split; [by intros [s ->]%get_column_is_Some; eexists|].
        intros [s [<- Hs]%get_column_Some]. by apply elem_of_columns. }
      rewrite !Hiff, (Hget "timestamp"); [done|].
      apply list_elem_of_further, list_elem_of_here. }
    rewrite Hk.
    assert (mapM (λ k, Pl.get_column k df1) (key_cols df2)
            = mapM (λ k, Pl.get_column k df2) (key_cols df2)) as ->.
    { apply Forall_mapM_ext, Forall_forall. intros k Hin. apply Hget.
      rewrite key_cols_cases in Hin. case_bool_decide.
      - apply elem_of_cons in Hin as [->|Hin]; [apply list_elem_of_here|].
        apply list_elem_of_singleton in Hin as ->.
        apply list_elem_of_further, list_elem_of_here.
      - apply list_elem_of_singleton in Hin as ->. apply list_elem_of_here. }
    assert (mapM (normalize_column df1) fc = mapM (normalize_column df2) fc) as ->; [|done].
    apply Forall_mapM_ext, Forall_forall. intros c Hc.
    apply normalize_column_agree; [done|]. apply Hget. by do 2 apply list_elem_of_further. }
  destruct z.
  - by rewrite !add_missing_cols_flag, !add_missing_cols_keep_counts, Hn.
  - by rewrite !add_missing_cols_keep_counts.
Qed.

(** X7: the result of [add_missing_cols] depends on the input frame only
    through its height and its key and canonical columns: two inputs that
    agree on those are normalised to the same frame, or both refused; in
    particular every other column of the input is without effect. *)
Theorem add_missing_cols_depends_on df1 df2 (fc : list string) (z : bool) :
  Pl.height df1 = Pl.height df2 →
  (∀ c, c ∈ "patient_id" :: "timestamp" :: fc →
        Pl.get_column c df1 = Pl.get_column c df2) →
  add_missing_cols df1 fc z = add_missing_cols df2 fc z.
Proof. apply add_missing_cols_agree. Qed.

Lemma get_column_perm df1 df2 c :
  df1 ≡ₚ df2 → NoDup (Pl.columns df1) → Pl.get_column c df1 = Pl.get_column c df2.
Proof.
  intros Hp Hnd.
  assert (Pl.columns df1 ≡ₚ Pl.columns df2) as Hpc.
  { change (Pl.name <$> df1 ≡ₚ Pl.name <$> df2). by rewrite Hp. }
  destruct (Pl.get_column c df1) as [s|] eqn:E.
  - apply get_column_Some in E as [<- Hs]. symmetry.
    apply get_column_elem_of; [by rewrite <- Hpc|by rewrite <- Hp].
  - symmetry. apply get_column_None. rewrite <- Hpc. by apply get_column_None.
Qed.

Lemma height_perm df1 df2 :
  df1 ≡ₚ df2 →
  (∀ s1 s2, s1 ∈ df1 → s2 ∈ df1 → length (Pl.values s1) = length (Pl.values s2)) →
  Pl.height df1 = Pl.height df2.
Proof.
  intros Hp Hrect. destruct df1 as [|s1 df1], df2 as [|s2 df2]; simpl.
  - done.
  - by apply Permutation_nil_l in Hp.
  - by apply Permutation_nil_r in Hp.
  - apply Hrect; [apply list_elem_of_here|]. rewrite Hp. apply list_elem_of_here.
Qed.

(** X8: the order of the columns of the input is without effect: two frames
    with the same columns in different orders, all of one length and with
    distinct names, are normalised to the same frame. *)
Theorem add_missing_cols_column_order df1 df2 (fc : list string) (z : bool) :
  df1 ≡ₚ df2 → NoDup (Pl.columns df1) →
  (∀ s1 s2, s1 ∈ df1 → s2 ∈ df1 → length (Pl.values s1) = length (Pl.values s2)) →
  add_missing_cols df1 fc z = add_missing_cols df2 fc z.
Proof.
  intros Hp Hnd Hrect. apply add_missing_cols_agree.
  - by apply height_perm.
  - intros c _. by apply get_column_perm.
Qed.

End add_missing_cols_further.



Lemma dynamic_catalog_refused_witness :
  (Sample.event "B" (Some 1%Z) (Some 2%Z) ∈ Sample.shard_df ∧ "sum" ∈ ["sum"; "count"]) ∧
  "B/sum" ∈ get_flat_rep_feature_cols ["sum"; "count"] Sample.shard_df ∧
  @add_missing_cols Sample.int_engine Sample.flat_df
    (get_flat_rep_feature_cols ["sum"; "count"] Sample.shard_df) false = None.
Proof.
  assert (Sample.event "B" (Some 1%Z) (Some 2%Z) ∈ Sample.shard_df) as Hr
    by (do 2 apply list_elem_of_further; apply list_elem_of_here).
  assert ("sum" ∈ ["sum"; "count"]) as Hagg by apply list_elem_of_here.
  split; [exact (conj Hr Hagg)|].
  apply (@dynamic_catalog_refused Sample.int_engine Sample.flat_df ["sum"; "count"]
           Sample.shard_df false _ "sum" Hr); [discriminate|reflexivity|exact Hagg|reflexivity].
Defined.

Lemma add_missing_cols_depends_on_witness :
  @Pl.height Sample.int_engine Sample.flat_df
  = @Pl.height Sample.int_engine (take 4 Sample.flat_df) ∧
  @add_missing_cols Sample.int_engine Sample.flat_df Sample.feature_columns true
  = @add_missing_cols Sample.int_engine (take 4 Sample.flat_df) Sample.feature_columns true.
Proof.
  split; [reflexivity|].
  apply (@add_missing_cols_depends_on Sample.int_engine); [reflexivity|].
  intros c Hc. unfold Sample.feature_columns in Hc.
  repeat (apply elem_of_cons in Hc as [->|Hc]; [reflexivity|]).
  by apply not_elem_of_nil in Hc.
Defined.

Lemma add_missing_cols_column_order_witness :
  reverse Sample.flat_df ≡ₚ Sample.flat_df ∧
  @add_missing_cols Sample.int_engine (reverse Sample.flat_df) Sample.feature_columns true
  = @add_missing_cols Sample.int_engine Sample.flat_df Sample.feature_columns true.
Proof.
  assert (reverse Sample.flat_df ≡ₚ Sample.flat_df) as Hp by apply reverse_Permutation.
  split; [exact Hp|].
  apply (@add_missing_cols_column_order Sample.int_engine); [exact Hp| |].
  - apply (bool_decide_unpack _). vm_compute. exact I.
  - assert (∀ s, s ∈ reverse Sample.flat_df → length (@Pl.values Sample.int_engine s) = 2)
      as Hlen.
    { intros s Hs. rewrite Hp in Hs. unfold Sample.flat_df in Hs.
      repeat (apply elem_of_cons in Hs as [->|Hs]; [reflexivity|]).
      by apply not_elem_of_nil in Hs. }
    intros s1 s2 H1 H2. by rewrite (Hlen s1 H1), (Hlen s2 H2).
Defined.

(** ** More on the column selection *)

Lemma column_selected_passes cs ags mfs col :
  column_selected cs ags mfs col = true ↔
  ∃ p0 c mid a1 a2,
    Py.split slash col = p0 :: (c :: mid) ++ [a1; a2] ∧
    passes cs (Py.join "/" (c :: mid)) ∧
    passes mfs (Py.join "/" (c :: mid)) ∧
    passes ags (a1 +:+ "/" +:+ a2).
Proof.
  split.
  - intros Hsel.
    destruct (decide (3 < length (Py.split slash col))) as [Hl|Hl];
      [|rewrite column_selected_short in Hsel by lia; done].
    destruct (list_ends_two _ Hl) as (p0 & c & mid & a1 & a2 & Hs).
    rewrite (column_selected_segments _ _ _ _ _ _ _ _ _ Hs) in Hsel.
    apply andb_true_iff in Hsel as [[H1 H2]%andb_true_iff H3].
    exists p0, c, mid, a1, a2. by rewrite <- !none_or_in_passes.
  - intros (p0 & c & mid & a1 & a2 & Hs & H1 & H2 & H3).
    rewrite (column_selected_segments _ _ _ _ _ _ _ _ _ Hs).
    apply none_or_in_passes in H1, H2, H3. by rewrite H1, H2, H3.
Qed.


Lemma key_names_not_selected cs ags mfs k :
  k ∈ ["patient_id"; "timestamp"] → column_selected cs ags mfs k = false.
Proof.
  intros [->|[->|?%not_elem_of_nil]%elem_of_cons]%elem_of_cons; [| |done];
    apply column_selected_short; simpl; lia.
Qed.

(** X10: the selected columns of a dynamic table: the columns of the table that
    pass the selection, in their order, followed by [patient_id] and
    [timestamp]; the two key names are added whether or not the table has
    them, and a table without repeated names gives a selection without
    repeated names, since the key names themselves never pass. *)
Theorem selected_columns_keys cs ags mfs (columns : list string) :
  (∃ kept, selected_columns cs ags mfs columns = kept ++ ["patient_id"; "timestamp"] ∧
           sublist kept columns ∧
           ∀ c, c ∈ kept ↔ c ∈ columns ∧ column_selected cs ags mfs c = true)
  ∧ (NoDup columns → NoDup (selected_columns cs ags mfs columns)).
Proof.
  unfold selected_columns. split.
  - eexists. split; [done|]. split.
    + induction columns as [|c l IH]; simpl; [done|].
      destruct (column_selected cs ags mfs c); [by apply sublist_skip|by apply sublist_cons].
    + intros c. rewrite list_elem_of_In, filter_In, <- list_elem_of_In. done.
  - intros Hnd. apply NoDup_app. split; [|split].
    + induction Hnd as [|c l Hc Hnd IH]; simpl; [apply NoDup_nil_2|].
      destruct (column_selected cs ags mfs c); [|done].
      apply NoDup_cons. split; [|done].
      rewrite list_elem_of_In, filter_In, <- list_elem_of_In. by intros [? _].
    + intros c [_ Hsel]%list_elem_of_In%filter_In Hk.
      by rewrite key_names_not_selected in Hsel.
    + apply NoDup_cons. split; [|apply NoDup_singleton].
      by intros [=]%list_elem_of_singleton.
Qed.

Lemma selected_columns_keys_witness :
  NoDup ["patient_id"; "30d/A/value/sum"; "A/sum"; "timestamp"] ∧
  NoDup (selected_columns None None None
           ["patient_id"; "30d/A/value/sum"; "A/sum"; "timestamp"]).
Proof.
  assert (NoDup ["patient_id"; "30d/A/value/sum"; "A/sum"; "timestamp"]) as Hnd
    by (apply (bool_decide_unpack _); vm_compute; exact I).
  split; [exact Hnd|].
  exact (proj2 (selected_columns_keys None None None _) Hnd).
Defined.

Lemma filter_sublist_impl {A} (P Q : A → bool) (l : list A) :
  (∀ x, P x = true → Q x = true) → sublist (List.filter P l) (List.filter Q l).
Proof.
  intros HPQ. induction l as [|x l IH]; simpl; [done|].
  destruct (P x) eqn:EP.
  - rewrite (HPQ x EP). by apply sublist_skip.
  - destruct (Q x); [by apply sublist_cons|done].
Qed.

(** X11: widening the axes never removes a column: when every axis lets
    through at least what it let through before, the former selection is a
    subsequence of the new one; in particular every selection is a
    subsequence of the selection with all three axes absent. *)
Theorem selected_columns_monotone cs ags mfs cs' ags' mfs' (columns : list string) :
  (∀ x, passes cs x → passes cs' x) →
  (∀ x, passes ags x → passes ags' x) →
  (∀ x, passes mfs x → passes mfs' x) →
  sublist (selected_columns cs ags mfs columns) (selected_columns cs' ags' mfs' columns)
  ∧ sublist (selected_columns cs ags mfs columns) (selected_columns None None None columns).
Proof.
  intros Hc Ha Hm. unfold selected_columns. split.
  - apply sublist_app; [|done]. apply filter_sublist_impl. intros col.
    rewrite !column_selected_passes.
    intros (p0 & c & mid & a1 & a2 & Hs & H1 & H2 & H3).
    exists p0, c, mid, a1, a2. auto.
  - apply sublist_app; [|done]. apply filter_sublist_impl. intros col.
    rewrite !column_selected_passes.
    intros (p0 & c & mid & a1 & a2 & Hs & _).
    exists p0, c, mid, a1, a2. split; [done|]. by repeat split; intros ? [=].
Qed.

Lemma selected_columns_monotone_witness :
  (∀ x, passes (Some {["A"]}) x → passes None x) ∧
  sublist (selected_columns (Some {["A"]}) None None ["30d/A/value/sum"; "30d/B/value/sum"])
          (selected_columns None None None ["30d/A/value/sum"; "30d/B/value/sum"]).
Proof.
  assert (∀ o x, passes o x → passes None x) as Hnone by (intros o x _ s Hs; discriminate Hs).
  split; [exact (Hnone _)|].
  exact (proj1 (selected_columns_monotone (Some {["A"]}) None None None None None _
                  (Hnone _) (Hnone _) (Hnone _))).
Defined.

Lemma filter_none {A} (P : A → bool) (l : list A) :
  (∀ x, x ∈ l → P x = false) → List.filter P l = [].
Proof.
  induction l as [|x l IH]; intros Hall; simpl; [done|].
  rewrite (Hall x (list_elem_of_here _ _)). apply IH. intros y Hy.
  apply Hall. by apply list_elem_of_further.
Qed.

(** X12: the names of the catalog are not names the selection keeps: when no
    code and no aggregation has a slash, every name of
    [get_flat_rep_feature_cols] has at most three segments, and the
    selection of [_load_shard] applied to the catalog keeps the two key
    names only, whatever the three axes. *)
Theorem catalog_names_not_selected cs ags mfs (aggs : list string) (shard_df : list Event) :
  (∀ r, r ∈ shard_df → slash_free (code r)) →
  (∀ agg, agg ∈ aggs → slash_free agg) →
  (∀ c, c ∈ get_flat_rep_feature_cols aggs shard_df → length (Py.split slash c) ≤ 3) ∧
  selected_columns cs ags mfs (get_flat_rep_feature_cols aggs shard_df)
  = ["patient_id"; "timestamp"].
Proof.
  intros Hcodes Haggs.
  assert (∀ c, c ∈ get_flat_rep_feature_cols aggs shard_df →
               length (Py.split slash c) ≤ 3) as Hshort.
  { intros c. unfold get_flat_rep_feature_cols. rewrite elem_of_app.
    rewrite get_static_feature_cols_perm, get_ts_feature_cols_perm, !list_elem_of_bind.
    intros [(code & Hc & Hin)|(code & Hc & Hin)].
    - apply elem_of_elements, elem_of_static_codes in Hin as (r & Hr & _ & <-).
      specialize (Hcodes r Hr).
      apply elem_of_static_aggregations in Hc as [->| ->].
      + change ("static/" +:+ code r +:+ "/present")
          with ("static" +:+ String slash (code r +:+ String slash "present")).
        rewrite !split_app_sep, (split_slash_free (code r)) by done. simpl. lia.
      + change ("static/" +:+ code r +:+ "/first")
          with ("static" +:+ String slash (code r +:+ String slash "first")).
        rewrite !split_app_sep, (split_slash_free (code r)) by done. simpl. lia.
    - apply elem_of_elements, elem_of_ts_codes in Hin as (r & Hr & _ & <-).
      apply elem_of_ts_aggregations in Hc as (agg & Hagg & ->).
      change (code r +:+ "/" +:+ agg) with (code r +:+ String slash agg).
      rewrite split_app_sep, (split_slash_free (code r)), (split_slash_free agg)
        by auto.
      simpl. lia. }
  split; [done|]. unfold selected_columns. rewrite filter_none; [done|].
  intros c Hc. by apply column_selected_short, Hshort.
Qed.

Lemma catalog_names_not_selected_witness :
  (∀ agg, agg ∈ ["sum"; "count"] → slash_free agg) ∧
  selected_columns None None None (get_flat_rep_feature_cols ["sum"; "count"] Sample.shard_df)
  = ["patient_id"; "timestamp"].
Proof.
  assert (∀ agg, agg ∈ ["sum"; "count"] → slash_free agg) as Haggs.
  { intros agg Hagg. repeat (apply elem_of_cons in Hagg as [->|Hagg]; [reflexivity|]).
    by apply not_elem_of_nil in Hagg. }
  split; [exact Haggs|].
  apply (catalog_names_not_selected None None None); [|exact Haggs].
  intros r Hr. unfold Sample.shard_df in Hr.
  repeat (apply elem_of_cons in Hr as [->|Hr]; [reflexivity|]).
  by apply not_elem_of_nil in Hr.
Defined.

(** ** The task table and the two matrices *)

Lemma renamed_endswith names c :
  c ∈ rename_task_columns names → Py.endswith c "/task" = true.
Proof.
  unfold rename_task_columns. rewrite list_elem_of_In, in_map_iff.
  intros (x & <- & _). apply endswith_append.
Qed.

Lemma filter_all {A} (P : A → bool) (l : list A) :
  (∀ x, x ∈ l → P x = true) → List.filter P l = l.
Proof.
  induction l as [|x l IH]; intros Hall; simpl; [done|].
  rewrite (Hall x (list_elem_of_here _ _)). f_equal. apply IH. intros y Hy.
  apply Hall. by apply list_elem_of_further.
Qed.

(** X13: after the renaming of [_load_shard] every column of the task table
    ends in [/task]: all of them are label columns and none is a feature
    column; and none carries the name of a key of the as-of join, so the task
    table that the join is called on has no [subject_id] and no [timestamp]
    column. *)
Theorem renamed_task_columns (names : list string) (window : string) :
  label_columns (rename_task_columns names) = rename_task_columns names
  ∧ feature_matrix_columns (rename_task_columns names) = []
  ∧ (by_ (join_asof_args window) ∉ rename_task_columns names)
  ∧ (on (join_asof_args window) ∉ rename_task_columns names).
Proof.
  split; [|split; [|split]].
  - apply filter_all, renamed_endswith.
  - apply filter_none. intros c Hc. rewrite (renamed_endswith _ _ Hc).
    apply andb_false_r.
  - intros Hin. by apply renamed_endswith in Hin.
  - intros Hin. by apply renamed_endswith in Hin.
Qed.

(** X14: no column is both a label and a feature column; the columns of the
    joined table that are neither are exactly those named [label],
    [patient_id] or [timestamp]; both selections keep the order of the table;
    and a column named [subject_id], the key the join is made by, is a feature
    column. *)
Theorem matrix_columns_partition (names : list string) :
  (∀ c, c ∈ label_columns names → c ∉ feature_matrix_columns names)
  ∧ (∀ c, c ∈ names →
       ((c ∉ label_columns names) ∧ (c ∉ feature_matrix_columns names))
       ↔ c ∈ ["label"; "patient_id"; "timestamp"])
  ∧ sublist (label_columns names) names
  ∧ sublist (feature_matrix_columns names) names
  ∧ (∀ window, by_ (join_asof_args window) ∈ names →
               by_ (join_asof_args window) ∈ feature_matrix_columns names).
Proof.
  unfold label_columns, feature_matrix_columns.
  split; [|split; [|split; [|split]]].
  - intros c [_ Hl]%list_elem_of_In%filter_In [_ Hf]%list_elem_of_In%filter_In.
    rewrite Hl in Hf. by rewrite andb_false_r in Hf.
  - intros c Hc. rewrite !list_elem_of_In, !filter_In, <- !list_elem_of_In.
    rewrite str_in_elem_of. split.
    + intros [Hl Hf]. destruct (Py.endswith c "/task"); [by destruct Hl|].
      case_bool_decide; [done|]. by destruct Hf.
    + intros Hk. rewrite bool_decide_eq_true_2 by done. split; [|by intros [_ ?]].
      intros [_ He].
      repeat (apply elem_of_cons in Hk as [->|Hk]; [discriminate He|]).
      by apply not_elem_of_nil in Hk.
  - induction names as [|c l IH]; simpl; [done|].
    destruct (Py.endswith c "/task"); [by apply sublist_skip|by apply sublist_cons].
  - induction names as [|c l IH]; simpl; [done|].
    destruct (_ && _); [by apply sublist_skip|by apply sublist_cons].
  - intros window Hin. simpl in *. by rewrite list_elem_of_In, filter_In, <- list_elem_of_In.
Qed.

Lemma matrix_columns_partition_witness :
  "subject_id" ∈ ["subject_id"; "timestamp"; "static/A/first"; "y/task"] ∧
  "subject_id" ∈ feature_matrix_columns
                   ["subject_id"; "timestamp"; "static/A/first"; "y/task"].
Proof.
  assert ("subject_id" ∈ ["subject_id"; "timestamp"; "static/A/first"; "y/task"]) as Hin
    by apply list_elem_of_here.
  split; [exact Hin|].
  exact (proj2 (proj2 (proj2 (proj2 (matrix_columns_partition _)))) "" Hin).
Defined.

(** ** More on the iterator *)

Section iterator_further.
Context `{ShardStore}.

Implicit Types (self : Iterator) (sink : list Batch).

Lemma next_inv self sink r self' sink' :
  next self sink = Some (r, self', sink') →
  (r = 0%Z ∧ _it self = length (_data_shards self) ∧ self' = self ∧ sink' = sink)
  ∨ (r = 1%Z ∧ _it self < length (_data_shards self) ∧
     _data_shards self' = _data_shards self ∧ _it self' = _it self + 1 ∧
     ∃ b, _load_shard self (_it self) = Some b ∧ sink' = sink ++ [b]).
Proof.
  unfold next. destruct (Nat.eqb_spec (_it self) (length (_data_shards self))) as [He|Hne].
  - intros [= <- <- <-]. by left.
  - intros (b & Hb & [= <- <- <-])%bind_Some. right.
    split; [done|]. split; [|by eauto].
    unfold _load_shard in Hb. apply bind_Some in Hb as (shard & Hs & _).
    by apply lookup_lt_Some in Hs.
Qed.

Lemma load_shard_same_shards self self' i :
  _data_shards self' = _data_shards self → _load_shard self' i = _load_shard self i.
Proof. intros Heq. unfold _load_shard. by rewrite Heq. Qed.

(** X15: whatever the shards do, a run of [k] calls of [next] that raises
    nowhere leaves the shard list alone, moves the index forward by the
    number of batches it passed to the sink and never past the number of
    shards, passes exactly the shards from the old index up to the new one,
    in order, and returns 1 for each of them and 0 for every call after
    them; and a call made with the index past the number of shards
    raises. *)
Theorem next_n_invariant (k : nat) self sink rs self' sink' :
  next_n k self sink = Some (rs, self', sink') →
  _data_shards self' = _data_shards self ∧
  _it self ≤ _it self' ∧
  (0 < k → _it self' ≤ length (_data_shards self)) ∧
  ∃ supplied,
    sink' = sink ++ supplied ∧
    _it self' = _it self + length supplied ∧
    mapM (_load_shard self) (seq (_it self) (length supplied)) = Some supplied ∧
    rs = replicate (length supplied) 1%Z ++ replicate (k - length supplied) 0%Z.
Proof.
  revert self sink rs self' sink'. induction k as [|k IH]; intros self sink rs self' sink'.
  - intros [= <- <- <-]. split; [done|]. split; [done|]. split; [lia|].
    exists []. by rewrite app_nil_r, Nat.add_0_r.
  - cbn [next_n]. intros ([[r s1] k1] & Hn & Hrest)%bind_Some.
    apply bind_Some in Hrest as ([[rs' s2] k2] & Hk & [= <- <- <-]).
    destruct (IH _ _ _ _ _ Hk) as (Hsh & Hle & Hbound & supplied & -> & Hit & Hm & ->).
    apply next_inv in Hn
      as [(-> & He & -> & ->)|(-> & Hlt & Hsh1 & Hit1 & b & Hb & ->)].
    + assert (supplied = []) as ->.
      { destruct k as [|k].
        - simpl in Hk. injection Hk as _ Hs2 _. rewrite <- Hs2 in Hit.
          destruct supplied; [done|simpl in Hit; lia].
        - specialize (Hbound ltac:(lia)). destruct supplied; [done|simpl in Hit; lia]. }
      simpl in Hit. split; [done|]. split; [done|]. split; [intros _; lia|].
      exists []. repeat split; [done|]. simpl. by rewrite Nat.sub_0_r.
    + split; [congruence|]. split; [lia|]. split.
      { intros _. destruct k as [|k].
        - simpl in Hk. injection Hk as _ Hs2 _. rewrite <- Hs2. lia.
        - rewrite <- Hsh1. apply Hbound. lia. }
      exists (b :: supplied). split; [by rewrite <- app_assoc|].
      split; [simpl; lia|]. split; [|done].
      cbn [length seq mapM]. rewrite Hb. cbn [mbind option_bind].
      rewrite Hit1 in Hm. replace (_it self + 1) with (S (_it self)) in Hm by lia.
      erewrite (mapM_ext _ (_load_shard s1)); [by rewrite Hm|].
      intros i. symmetry. by apply load_shard_same_shards.
Qed.

End iterator_further.

Lemma next_n_invariant_witness :
  @next_n Sample.two_shards 2 Sample.it1 []
  = Some ([1%Z; 0%Z], {| _data_shards := ["0"; "1"]; _it := 2 |},
          [(Sample.matrix 2, Sample.matrix 20)])
  ∧ _it {| _data_shards := ["0"; "1"]; _it := 2 |} ≤ length (_data_shards Sample.it1).
Proof.
  assert (@next_n Sample.two_shards 2 Sample.it1 []
          = Some ([1%Z; 0%Z], {| _data_shards := ["0"; "1"]; _it := 2 |},
                  [(Sample.matrix 2, Sample.matrix 20)])) as Hn by reflexivity.
  split; [exact Hn|].
  exact (proj1 (proj2 (proj2 (@next_n_invariant Sample.two_shards _ _ _ _ _ _ Hn)))
               (Nat.lt_0_succ 1)).
Defined.

(** ** The in-memory collection *)

Lemma concatenate_Some {V} (l : list (Np.ndarray V)) (a : Np.ndarray V) :
  Np.concatenate l = Some a ↔
  l ≠ [] ∧ Forall (λ b, Np.ncols b = Np.ncols a) l ∧
  Np.rows a = concat (map Np.rows l) ∧
  ∃ b0 l', l = b0 :: l' ∧ Np.ncols a = Np.ncols b0.
Proof.
  unfold Np.concatenate. destruct l as [|b0 l'].
  - split; [done|]. by intros [? _].
  - destruct (forallb _ _) eqn:E.
    + split.
      * intros [= <-]. simpl. split; [done|]. split; [|by eauto].
        pose proof (proj1 (forallb_forall _ _) E) as E'. apply Forall_forall.
        intros b Hb. apply Nat.eqb_eq, E'. by apply list_elem_of_In.
      * intros (_ & _ & Hr & b0' & l'' & [= <- <-] & Hn). destruct a as [n r].
        simpl in *. by rewrite Hr, Hn.
    + split; [done|]. intros (_ & Hall & _ & b0' & l'' & [= <- <-] & Hn).
      assert (forallb (λ b, Np.ncols b =? Np.ncols b0) (b0 :: l') = true) as Ht.
      { apply forallb_forall. intros b Hb. apply Nat.eqb_eq.
        rewrite Forall_forall in Hall. rewrite <- Hn. apply Hall. by apply list_elem_of_In. }
      congruence.
Qed.

Lemma concatenate_is_Some {V} (l : list (Np.ndarray V)) :
  is_Some (Np.concatenate l) ↔
  l ≠ [] ∧ ∀ b b', b ∈ l → b' ∈ l → Np.ncols b = Np.ncols b'.
Proof.
  split.
  - intros [a (Hne & Hall & _)%concatenate_Some]. split; [done|].
    rewrite Forall_forall in Hall. intros b b' Hb Hb'.
    by rewrite (Hall b Hb), (Hall b' Hb').
  - intros [Hne Hsame]. destruct l as [|b0 l']; [done|].
    exists {| Np.ncols := Np.ncols b0; Np.rows := concat (map Np.rows (b0 :: l')) |}.
    apply concatenate_Some. split; [done|]. split; [|by eauto].
    apply Forall_forall. intros b Hb. simpl. apply Hsame; [done|apply list_elem_of_here].
Qed.

Lemma length_concat_rows {V} (l : list (Np.ndarray V)) :
  length (concat (map Np.rows l)) = sum_list_with (λ b, length (Np.rows b)) l.
Proof. induction l as [|b l IH]; simpl; [done|]. by rewrite length_app, IH. Qed.

Section collect_further.
Context `{ShardStore}.

Implicit Types (self : Iterator) (bs : list Batch).

Lemma collect_in_memory_Some self X y :
  collect_in_memory self = Some (X, y) ↔
  ∃ bs, mapM assemble (_data_shards self) = Some bs ∧
        Np.concatenate (map fst bs) = Some X ∧ Np.concatenate (map snd bs) = Some y.
Proof.
  pose proof (mapM_load_shard self) as Hload. unfold Batch in Hload.
  split.
  - unfold collect_in_memory. rewrite Hload.
    intros (bs & Hm & (X' & HX & (y' & Hy & [= <- <-])%bind_Some)%bind_Some)%bind_Some.
    by exists bs.
  - intros (bs & Hm & HX & Hy). unfold collect_in_memory, Batch in *.
    rewrite Hload, Hm. simpl. rewrite HX. simpl. by rewrite Hy.
Qed.

(** X16: [collect_in_memory] returns exactly when there is at least one shard,
    every shard assembles, and all feature matrices agree on their number of
    columns, as do all label matrices; otherwise it raises.  Without shards
    it raises, although [next] on a fresh iterator then reports the end of
    the data. *)
Theorem collect_in_memory_returns_iff self :
  (is_Some (collect_in_memory self) ↔
     _data_shards self ≠ [] ∧
     ∃ bs, mapM assemble (_data_shards self) = Some bs ∧
           ∀ b b', b ∈ bs → b' ∈ bs →
                   Np.ncols b.1 = Np.ncols b'.1 ∧ Np.ncols b.2 = Np.ncols b'.2)
  ∧ (_data_shards self = [] →
     collect_in_memory self = None ∧
     ∀ sink, next (reset self) sink = Some (0%Z, reset self, sink)).
Proof.
  split.
  - split.
    + intros [[X y] (bs & Hm & HX & Hy)%collect_in_memory_Some].
      assert (is_Some (Np.concatenate (map fst bs))) as [HneX HsX]%concatenate_is_Some
        by by eexists.
      assert (is_Some (Np.concatenate (map snd bs))) as [_ Hsy]%concatenate_is_Some
        by by eexists.
      split.
      { intros Hnil. rewrite Hnil in Hm. injection Hm as <-. by apply HneX. }
      exists bs. split; [done|]. intros b b' Hb Hb'. split.
      * apply HsX; change (map fst bs) with (fst <$> bs); by apply list_elem_of_fmap_2.
      * apply Hsy; change (map snd bs) with (snd <$> bs); by apply list_elem_of_fmap_2.
    + intros (Hne & bs & Hm & Hsame).
      assert (bs ≠ []) as Hbs.
      { intros ->. apply length_mapM in Hm. destruct (_data_shards self); [done|].
        simpl in Hm. lia. }
      destruct (proj2 (concatenate_is_Some (map fst bs))) as [X HX].
      { split; [by destruct bs|]. intros b b'.
        change (map fst bs) with (fst <$> bs).
        intros ([? ?] & -> & Hb)%list_elem_of_fmap ([? ?] & -> & Hb')%list_elem_of_fmap.
        by destruct (Hsame _ _ Hb Hb'). }
      destruct (proj2 (concatenate_is_Some (map snd bs))) as [y Hy].
      { split; [by destruct bs|]. intros b b'.
        change (map snd bs) with (snd <$> bs).
        intros ([? ?] & -> & Hb)%list_elem_of_fmap ([? ?] & -> & Hb')%list_elem_of_fmap.
        by destruct (Hsame _ _ Hb Hb'). }
      exists (X, y). apply collect_in_memory_Some. by exists bs.
  - intros Hnil. split.
    + unfold collect_in_memory. by rewrite Hnil.
    + intros sink. unfold next, reset. simpl. by rewrite Hnil.
Qed.

(** X17: what [collect_in_memory] returns has the shape of its shards: every
    shard has the number of feature columns and of label columns of the
    result, the result has as many rows as all shards together, and when the
    two matrices of each shard have the same number of rows, so have the two
    matrices of the result. *)
Theorem collect_in_memory_shape self (X y : Np.ndarray Elt) :
  collect_in_memory self = Some (X, y) →
  ∃ bs,
    mapM assemble (_data_shards self) = Some bs ∧
    Forall (λ b, Np.ncols b.1 = Np.ncols X ∧ Np.ncols b.2 = Np.ncols y) bs ∧
    length (Np.rows X) = sum_list_with (λ b, length (Np.rows b.1)) bs ∧
    length (Np.rows y) = sum_list_with (λ b, length (Np.rows b.2)) bs ∧
    (Forall (λ b, length (Np.rows b.1) = length (Np.rows b.2)) bs →
     length (Np.rows X) = length (Np.rows y)).
Proof.
  intros (bs & Hm & HX & Hy)%collect_in_memory_Some. exists bs. split; [done|].
  apply concatenate_Some in HX as (_ & HcX & HrX & _).
  apply concatenate_Some in Hy as (_ & Hcy & Hry & _).
  assert (length (Np.rows X) = sum_list_with (λ b, length (Np.rows b.1)) bs) as HlX.
  { rewrite HrX, length_concat_rows. clear. induction bs as [|b bs IH]; simpl; [done|].
    by rewrite IH. }
  assert (length (Np.rows y) = sum_list_with (λ b, length (Np.rows b.2)) bs) as Hly.
  { rewrite Hry, length_concat_rows. clear. induction bs as [|b bs IH]; simpl; [done|].
    by rewrite IH. }
  split; [|split; [done|split; [done|]]].
  - apply Forall_forall. intros b Hb. rewrite Forall_forall in HcX, Hcy. split.
    + apply HcX. change (map fst bs) with (fst <$> bs). by apply list_elem_of_fmap_2.
    + apply Hcy. change (map snd bs) with (snd <$> bs). by apply list_elem_of_fmap_2.
  - intros Hal. rewrite HlX, Hly. clear -Hal.
    induction Hal as [|b bs Hb _ IH]; simpl; [done|]. by rewrite Hb, IH.
Qed.

End collect_further.

Lemma collect_in_memory_returns_iff_witness :
  _data_shards Sample.it1 ≠ [] ∧
  is_Some (@collect_in_memory Sample.two_shards Sample.it1).
Proof.
  assert (_data_shards Sample.it1 ≠ []) as Hne by discriminate.
  split; [exact Hne|].
  apply (proj2 (proj1 (@collect_in_memory_returns_iff Sample.two_shards Sample.it1))).
  split; [exact Hne|].
  exists [(Sample.matrix 1, Sample.matrix 10); (Sample.matrix 2, Sample.matrix 20)].
  split; [reflexivity|]. intros b b' Hb Hb'.
  repeat (apply elem_of_cons in Hb as [->|Hb]);
    repeat (apply elem_of_cons in Hb' as [->|Hb']);
    try (by apply not_elem_of_nil in Hb); try (by apply not_elem_of_nil in Hb');
    split; reflexivity.
Defined.

Lemma collect_in_memory_shape_witness :
  @collect_in_memory Sample.two_shards Sample.it1
  = Some ({| Np.ncols := 1; Np.rows := [[1%Z]; [2%Z]] |},
          {| Np.ncols := 1; Np.rows := [[10%Z]; [20%Z]] |})
  ∧ ∃ bs, @mapM option _ _ _ _ (@assemble Sample.two_shards) ["0"; "1"] = Some bs ∧
          2 = sum_list_with (λ b, length (Np.rows b.1)) bs.
Proof.
  assert (@collect_in_memory Sample.two_shards Sample.it1
          = Some ({| Np.ncols := 1; Np.rows := [[1%Z]; [2%Z]] |},
                  {| Np.ncols := 1; Np.rows := [[10%Z]; [20%Z]] |})) as Hc by reflexivity.
  split; [exact Hc|].
  destruct (@collect_in_memory_shape Sample.two_shards _ _ _ Hc)
    as (bs & Hm & _ & HX & _).
  exists bs. split; [exact Hm|exact HX].
Defined.

(** ** The shards on disk *)

(** X18: [load_meds_data] groups the files by the name of their directory: a
    split is a key exactly when some file lies in it, its entry holds the
    readers of the files of that split and of no other, in the order of the
    listing, and is never empty; every file is read under its own split. *)
Theorem load_meds_data_groups {LF} (scan_parquet : ParquetPath → LF)
    (meds_fps : list ParquetPath) :
  let split_to_df := load_meds_data scan_parquet meds_fps in
  (∀ split l,
     split_to_df !! split = Some l ↔
     (∃ fp, fp ∈ meds_fps ∧ parent_stem fp = split) ∧
     l = map scan_parquet
           (List.filter (λ fp, String.eqb (parent_stem fp) split) meds_fps))
  ∧ (∀ split l, split_to_df !! split = Some l → l ≠ [])
  ∧ (∀ fp, fp ∈ meds_fps →
       ∃ l, split_to_df !! parent_stem fp = Some l ∧ scan_parquet fp ∈ l)
  ∧ size split_to_df = size (list_to_set (map parent_stem meds_fps) : gset string).
Proof.
  intros split_to_df.
  assert (∀ split l,
     split_to_df !! split = Some l ↔
     (∃ fp, fp ∈ meds_fps ∧ parent_stem fp = split) ∧
     l = map scan_parquet
           (List.filter (λ fp, String.eqb (parent_stem fp) split) meds_fps)) as Hlookup.
  { intros split l. subst split_to_df. unfold load_meds_data.
    rewrite lookup_fmap, fmap_Some.
    setoid_rewrite lookup_set_to_map; [|by intros ? ? _ _ ?].
    setoid_rewrite elem_of_list_to_set. split.
    - intros (fps & (s' & Hin & [= -> <-]) & ->). split; [|done].
      apply list_elem_of_In, in_map_iff in Hin as (fp & <- & Hfp).
      exists fp. by rewrite list_elem_of_In.
    - intros [(fp & Hfp & <-) ->]. eexists. split; [|done].
      exists (parent_stem fp). split; [|done].
      apply list_elem_of_In, in_map. by apply list_elem_of_In. }
  split; [done|]. split; [|split].
  - intros split l [(fp & Hfp & Hs) ->]%Hlookup Hnil.
    apply map_eq_nil in Hnil.
    assert (fp ∈ List.filter (λ fp, String.eqb (parent_stem fp) split) meds_fps) as Hin.
    { apply list_elem_of_In, filter_In. rewrite <- list_elem_of_In.
      split; [done|]. by apply String.eqb_eq. }
    rewrite Hnil in Hin. by apply not_elem_of_nil in Hin.
  - intros fp Hfp. eexists. split; [apply Hlookup; split; [by exists fp|done]|].
    apply list_elem_of_In, in_map, filter_In. rewrite <- list_elem_of_In.
    split; [done|]. apply String.eqb_refl.
  - subst split_to_df. unfold load_meds_data.
    rewrite <- !size_dom, dom_fmap_L. f_equal. apply set_eq. intros split.
    rewrite elem_of_dom. unfold is_Some.
    setoid_rewrite lookup_set_to_map; [|by intros ? ? _ _ ?].
    split.
    + by intros (l & s' & Hin & [= -> _]).
    + intros Hin. eexists. exists split. by split.
Qed.

Lemma load_meds_data_groups_witness :
  {| parent_stem := "train"; file_name := "1.parquet" |}
    ∈ [ {| parent_stem := "train"; file_name := "0.parquet" |};
        {| parent_stem := "held_out"; file_name := "0.parquet" |};
        {| parent_stem := "train"; file_name := "1.parquet" |} ] ∧
  ∃ l, load_meds_data file_name
         [ {| parent_stem := "train"; file_name := "0.parquet" |};
           {| parent_stem := "held_out"; file_name := "0.parquet" |};
           {| parent_stem := "train"; file_name := "1.parquet" |} ] !! "train" = Some l ∧
       "1.parquet" ∈ l.
Proof.
  assert ({| parent_stem := "train"; file_name := "1.parquet" |}
    ∈ [ {| parent_stem := "train"; file_name := "0.parquet" |};
        {| parent_stem := "held_out"; file_name := "0.parquet" |};
        {| parent_stem := "train"; file_name := "1.parquet" |} ]) as Hin
    by (do 2 apply list_elem_of_further; apply list_elem_of_here).
  split; [exact Hin|].
  exact (proj1 (proj2 (proj2 (load_meds_data_groups file_name _))) _ Hin).
Defined.

(** ** The static tables of the shards *)

Lemma lookup_static_shards_from {LF} (scan_parquet : string → LF)
    (shards : list string) (m : gmap string LF) (shard : string) :
  foldl (λ static_shards iter, <[iter := scan_parquet (static_shard_path iter)]> static_shards)
        m shards !! shard
  = if bool_decide (shard ∈ shards) then Some (scan_parquet (static_shard_path shard))
    else m !! shard.
Proof.
  revert m. induction shards as [|x l IH]; intros m; cbn [foldl].
  - by rewrite bool_decide_eq_false_2 by apply not_elem_of_nil.
  - rewrite IH. case_bool_decide as Hl.
    + by rewrite bool_decide_eq_true_2 by by apply list_elem_of_further.
    + destruct (decide (x = shard)) as [->|Hne].
      * rewrite lookup_insert_eq.
        by rewrite bool_decide_eq_true_2 by apply list_elem_of_here.
      * rewrite lookup_insert_ne by done.
        rewrite bool_decide_eq_false_2; [done|].
        rewrite elem_of_cons. intros [?|?]; [congruence|done].
Qed.

(** X19: keeping the static tables in memory changes nothing about what a
    shard index reads: the table cached for the shard at an index is the
    reader of that shard's file, as without the cache; the cache has one
    entry per shard name; and an index past the shards raises either way. *)
Theorem static_shards_cache {LF} (scan_parquet : string → LF)
    (_data_shards : list string) (idx : nat) :
  load_static scan_parquet true (_get_static_shards scan_parquet _data_shards)
              _data_shards idx
  = load_static scan_parquet false ∅ _data_shards idx
  ∧ dom (_get_static_shards scan_parquet _data_shards) = list_to_set _data_shards
  ∧ (load_static scan_parquet false ∅ _data_shards idx = None
     ↔ length _data_shards ≤ idx).
Proof.
  unfold load_static, _get_static_shards. split; [|split].
  - destruct (_data_shards !! idx) as [shard|] eqn:E; simpl; [|done].
    rewrite lookup_static_shards_from.
    by rewrite bool_decide_eq_true_2 by by eapply list_elem_of_lookup_2.
  - apply set_eq. intros shard. rewrite elem_of_dom, lookup_static_shards_from.
    rewrite elem_of_list_to_set. case_bool_decide; [by split; [|eexists]|].
    rewrite lookup_empty. split; [by intros [? ?]|done].
  - rewrite <- lookup_ge_None.
    destruct (_data_shards !! idx); simpl; by split.
Qed.

(** X20: every shard name read off the listing of the static directory is the
    name of a file of that directory with the suffix [.parquet] taken off, so
    that the file the iterator opens for the shard is in the directory;
    directories and files with another suffix give no shard. *)
Theorem data_shards_are_files `{Pathlib} (iterdir : list DirEntry) :
  (∀ x, x ∈ iterdir → stem (entry_name x) +:+ suffix (entry_name x) = entry_name x) →
  ∀ shard, shard ∈ list_data_shards iterdir →
    ∃ x, x ∈ iterdir ∧ is_file x = true ∧ entry_name x = static_shard_path shard.
Proof.
  intros Hlaw shard. unfold list_data_shards.
  rewrite list_elem_of_In, in_map_iff.
  intros (x & <- & [Hx [Hf Hs]%andb_true_iff]%filter_In).
  apply list_elem_of_In in Hx. apply String.eqb_eq in Hs.
  exists x. split; [done|]. split; [done|].
  unfold static_shard_path. by rewrite <- Hs, Hlaw.
Qed.

Lemma data_shards_are_files_witness :
  @list_data_shards Sample.one_dot
    [ {| entry_name := "0.parquet"; is_file := true |};
      {| entry_name := "notes.txt"; is_file := true |};
      {| entry_name := "1.parquet"; is_file := false |} ] = ["0"]
  ∧ ∃ x, x ∈ [ {| entry_name := "0.parquet"; is_file := true |};
               {| entry_name := "notes.txt"; is_file := true |};
               {| entry_name := "1.parquet"; is_file := false |} ] ∧
         is_file x = true ∧ entry_name x = static_shard_path "0".
Proof.
  split; [reflexivity|].
  apply (@data_shards_are_files Sample.one_dot).
  - intros x Hx. repeat (apply elem_of_cons in Hx as [->|Hx]; [reflexivity|]).
    by apply not_elem_of_nil in Hx.
  - apply list_elem_of_here.
Defined.

(** ** Writing a frame *)

(** X21: on a file system where a written file is a file afterwards, a second
    [write_df] to a path that was written is refused with
    [FileExistsError] exactly when it is not given [do_overwrite=True]; a
    missing keyword counts as false. *)
Theorem write_df_second_write `{FileSystem} (df df' : DF_T) (fp : string)
    (kwargs kwargs' : gmap string bool) (fs fs' : FS) :
  (∀ fs fp frame fs', write_parquet fs fp frame = Some fs' → path_is_file fs' fp = true) →
  write_df df fp kwargs fs = Written fs' →
  (write_df df' fp kwargs' fs' = FileExistsError (fp +:+ " exists and do_overwrite is False!")
   ↔ kwargs' !! "do_overwrite" ≠ Some true).
Proof.
  intros Hlaw Hw.
  assert (path_is_file fs' fp = true) as Hfile.
  { unfold write_df in Hw.
    destruct (negb _ && _); [done|].
    destruct (mkdir_parents fs fp) as [fs1|]; [|done].
    destruct df as [[frame|]|frame]; try done.
    - destruct (write_parquet fs1 fp frame) as [fs2|] eqn:E; [|done].
      injection Hw as <-. by eapply Hlaw.
    - destruct (write_parquet fs1 fp frame) as [fs2|] eqn:E; [|done].
      injection Hw as <-. by eapply Hlaw. }
  unfold write_df. rewrite Hfile, andb_true_r.
  destruct (kwargs' !! "do_overwrite") as [[|]|]; simpl.
  - split; [|done]. destruct (mkdir_parents fs' fp) as [fs1|]; [|done].
    destruct df' as [[frame|]|frame]; try done;
      by destruct (write_parquet fs1 fp frame).
  - done.
  - done.
Qed.

Lemma write_df_second_write_witness :
  @write_df Sample.files_only (@DataFrame Sample.files_only [1%Z]) "out/0.parquet" ∅ ∅
  = @Written Sample.files_only {["out/0.parquet" := [1%Z]]}
  ∧ @write_df Sample.files_only (@DataFrame Sample.files_only [2%Z]) "out/0.parquet" ∅
      {["out/0.parquet" := [1%Z]]}
  = @FileExistsError Sample.files_only "out/0.parquet exists and do_overwrite is False!".
Proof.
  assert (@write_df Sample.files_only (@DataFrame Sample.files_only [1%Z]) "out/0.parquet" ∅ ∅
          = @Written Sample.files_only {["out/0.parquet" := [1%Z]]}) as Hw by reflexivity.
  split; [exact Hw|].
  assert (∀ fs fp frame fs',
            @write_parquet Sample.files_only fs fp frame = Some fs' →
            @path_is_file Sample.files_only fs' fp = true) as Hlaw.
  { intros fs fp frame fs' [= <-]. apply bool_decide_eq_true_2.
    exists frame. apply lookup_insert_eq. }
  apply (proj2 (@write_df_second_write Sample.files_only _
                  (@DataFrame Sample.files_only [2%Z]) _ _ ∅ _ _ Hlaw Hw)).
  discriminate.
Defined.

(** ** The height of a normalised frame *)

Section add_missing_cols_height.
Context `{Engine}.

(** X22: on an engine whose casts keep the length of a column, normalising a
    frame whose columns all have the height of the frame returns a frame
    whose columns all have that height, with or without the zero-to-null
    flag: no row is added or lost, and the null columns are as long as the
    others. *)
Theorem add_missing_cols_keeps_height (df out : Pl.DataFrame) (fc : list string)
    (z : bool) :
  (∀ src dst vs vs', cast src dst vs = Some vs' → length vs' = length vs) →
  (∀ s, s ∈ df → length (Pl.values s) = Pl.height df) →
  add_missing_cols df fc z = Some out →
  ∀ s, s ∈ out → length (Pl.values s) = Pl.height df.
Proof.
  intros Hcast Hrect Hout.
  assert (∀ t, normalized df fc = Some t →
               ∀ s, s ∈ t → length (Pl.values s) = Pl.height df) as Hnorm.
  { intros t Hn s Hs.
    destruct (normalized_inv _ _ _ Hn) as (Hcols & Hnd & _ & Hkeys & Hfeats & _).
    pose proof (get_column_elem_of _ _ Hnd Hs) as Hget.
    pose proof (elem_of_columns _ _ Hs) as Hin. rewrite Hcols in Hin.
    apply elem_of_app in Hin as [Hk|Hc].
    - rewrite (Hkeys _ Hk) in Hget. apply get_column_Some in Hget as [_ Hdf].
      by apply Hrect.
    - rewrite (Hfeats _ Hc) in Hget. unfold normalize_column in Hget.
      apply bind_Some in Hget as (dt & _ & Hget).
      destruct (Pl.get_column (Pl.name s) df) as [s0|] eqn:E.
      + apply bind_Some in Hget as (vs & Hvs & [= <-]). simpl.
        rewrite (Hcast _ _ _ _ Hvs). apply get_column_Some in E as [_ Hdf].
        by apply Hrect.
      + injection Hget as <-. simpl. apply length_replicate. }
  destruct z.
  - rewrite add_missing_cols_flag, add_missing_cols_keep_counts in Hout.
    apply bind_Some in Hout as (t & Hn & Hz).
    destruct (normalized_inv _ _ _ Hn) as (_ & Hnd & _).
    rewrite (zero_counts_to_null_map _ Hnd) in Hz. injection Hz as <-.
    intros s' (s & <- & Hs)%list_elem_of_In%in_map_iff. apply list_elem_of_In in Hs.
    rewrite <- (Hnorm _ Hn s Hs). unfold nullify.
    destruct (Py.endswith _ _); [apply length_map|done].
  - rewrite add_missing_cols_keep_counts in Hout. by apply Hnorm.
Qed.

End add_missing_cols_height.

Lemma add_missing_cols_keeps_height_witness :
  (∀ s, s ∈ Sample.flat_df → length (@Pl.values Sample.int_engine s)
                              = @Pl.height Sample.int_engine Sample.flat_df) ∧
  @add_missing_cols Sample.int_engine Sample.flat_df Sample.feature_columns true
  = Some [ Sample.series "patient_id" Int64 [Some 1%Z; Some 2%Z];
           Sample.series "timestamp" Datetime [Some 10%Z; Some 20%Z];
           Sample.series "static/A/present" Boolean [None; None];
           Sample.series "static/B/first" Float32 [Some 7%Z; None];
           Sample.series "w/A/count" UInt32 [None; Some 3%Z] ] ∧
  length (@Pl.values Sample.int_engine (Sample.series "static/A/present" Boolean [None; None]))
  = @Pl.height Sample.int_engine Sample.flat_df.
Proof.
  assert (∀ s, s ∈ Sample.flat_df → length (@Pl.values Sample.int_engine s)
                                    = @Pl.height Sample.int_engine Sample.flat_df) as Hrect.
  { intros s Hs. unfold Sample.flat_df in Hs.
    repeat (apply elem_of_cons in Hs as [->|Hs]; [reflexivity|]).
    by apply not_elem_of_nil in Hs. }
  assert (∀ src dst vs vs', Sample.int_cast src dst vs = Some vs' →
                            length vs' = length vs) as Hcast.
  { intros src dst vs vs'. unfold Sample.int_cast.
    destruct (bool_decide (src = dst)); [by intros [= <-]|].
    destruct dst; try (by intros [= <-]).
    - intros [= <-]. apply length_map.
    - destruct (forallb _ vs); [by intros [= <-]|discriminate]. }
  assert (@add_missing_cols Sample.int_engine Sample.flat_df Sample.feature_columns true
          = Some [ Sample.series "patient_id" Int64 [Some 1%Z; Some 2%Z];
                   Sample.series "timestamp" Datetime [Some 10%Z; Some 20%Z];
                   Sample.series "static/A/present" Boolean [None; None];
                   Sample.series "static/B/first" Float32 [Some 7%Z; None];
                   Sample.series "w/A/count" UInt32 [None; Some 3%Z] ]) as Hout
    by (vm_compute; reflexivity).
  split; [exact Hrect|]. split; [exact Hout|].
  refine (@add_missing_cols_keeps_height Sample.int_engine Sample.flat_df _
            Sample.feature_columns true Hcast Hrect Hout _ _).
  do 2 apply list_elem_of_further. apply list_elem_of_here.
Defined.


Lemma renamed_task_columns_witness :
  label_columns (rename_task_columns ["subject_id"; "timestamp"; "label"])
  = ["subject_id/task"; "timestamp/task"; "label/task"]
  ∧ "subject_id" ∉ rename_task_columns ["subject_id"; "timestamp"; "label"].
Proof.
  pose proof (renamed_task_columns ["subject_id"; "timestamp"; "label"] "-30d")
    as (Hl & _ & Hby & _).
  split; [exact Hl|exact Hby].
Defined.

Lemma static_shards_cache_witness :
  load_static (λ fp : string, fp) true (_get_static_shards (λ fp : string, fp) ["0"; "1"])
              ["0"; "1"] 1
  = Some "1.parquet".
Proof.
  rewrite (proj1 (static_shards_cache (λ fp : string, fp) ["0"; "1"] 1)). reflexivity.
Defined.
